(** * gulp-bundle-assets: the streaming bundle resolver and the configuration model

    A shallow embedding of [Bundler] (the object-mode [Transform] that
    collects Vinyl files under their virtual paths and hands them to the
    bundler factories on flush) and of the configuration model exercised by
    the unit tests.

    JavaScript values are embedded as follows.
    - strings: [string]; [startsWith] and [replace] follow
      [String.prototype.startsWith] and [String.prototype.replace] for a
      string pattern and a string replacement (including the dollar
      patterns of the replacement text);
    - [Map]: an association list in insertion order with unique keys
      ([JsMap]); [set] on a present key keeps the key's position;
    - Vinyl objects: references into a heap, because [_transform] and
      [_flush] mutate the chunk they are given and the table stores the
      very same object;
    - [try]/[catch], [this.push] and [callback]: a state-and-exception
      monad over the [World]; a thrown value leaves the mutations done
      before it in place, as in JavaScript;
    - objects used as dictionaries: association lists in the order the
      keys were written, enumerated by [for]-[in] in the order
      [JsObject.for_in_order] gives. *)

From Stdlib Require Import String Ascii List Bool Arith NArith Lia Permutation.
Import ListNotations.
Local Open Scope list_scope.
Local Open Scope string_scope.

(** ** JavaScript strings *)

Module JsString.

(** [s.startsWith(searchString)] *)
Fixpoint startsWith (s searchString : string) {struct searchString} : bool :=
  match searchString with
  | EmptyString => true
  | String c p =>
      match s with
      | EmptyString => false
      | String d s' => if Ascii.eqb c d then startsWith s' p else false
      end
  end.

(** [s.substring(n)] *)
Fixpoint drop (n : nat) (s : string) : string :=
  match n with
  | 0 => s
  | S n' => match s with
            | EmptyString => EmptyString
            | String _ s' => drop n' s'
            end
  end.

(** The text before and after the first occurrence of [pat] in [s]
    ([s.indexOf(pat)] and the two slices around the match). *)
Fixpoint split_first (s pat : string) : option (string * string) :=
  if startsWith s pat then Some (EmptyString, drop (String.length pat) s)
  else match s with
       | EmptyString => None
       | String c s' =>
           match split_first s' pat with
           | Some (b, a) => Some (String c b, a)
           | None => None
           end
       end.

(** ECMAScript [GetSubstitution] for a match without captures: in the
    replacement text, [$$] stands for a dollar sign, [$&] for the matched
    text, [$`] for the text before the match and [$'] for the text after
    it; every other character (a lone dollar sign included) stands for
    itself. *)
Fixpoint GetSubstitution (matched before after replacement : string) : string :=
  match replacement with
  | EmptyString => EmptyString
  | String c rest =>
      if Ascii.eqb c "$" then
        match rest with
        | EmptyString => String c EmptyString
        | String d rest' =>
            if Ascii.eqb d "$" then
              String "$" (GetSubstitution matched before after rest')
            else if Ascii.eqb d "&" then
              matched ++ GetSubstitution matched before after rest'
            else if Ascii.eqb d "`" then
              before ++ GetSubstitution matched before after rest'
            else if Ascii.eqb d "'" then
              after ++ GetSubstitution matched before after rest'
            else String c (GetSubstitution matched before after rest)
        end
      else String c (GetSubstitution matched before after rest)
  end.

(** [s.replace(pat, replacement)] with a string pattern: only the first
    occurrence is replaced. *)
Definition replace (s pat replacement : string) : string :=
  match split_first s pat with
  | None => s
  | Some (before, after) =>
      before ++ GetSubstitution pat before after replacement ++ after
  end.

(** The replacement text holds no dollar sign. *)
Fixpoint dollar_free (s : string) : bool :=
  match s with
  | EmptyString => true
  | String c s' => negb (Ascii.eqb c "$") && dollar_free s'
  end.

End JsString.

(** ** Node's [path.resolve], on a POSIX system *)

Module NodePath.

(** The segments of a path between its separators. *)
Fixpoint segments (s : string) : list string :=
  match s with
  | EmptyString => [EmptyString]
  | String c s' =>
      if Ascii.eqb c "/" then EmptyString :: segments s'
      else match segments s' with
           | seg :: rest => String c seg :: rest
           | [] => [String c EmptyString]
           end
  end.

(** One step of [normalizeString] below the root: empty and [.] segments
    are dropped and [..] removes the segment before it, if any.  The
    stack holds the kept segments, innermost first. *)
Definition normalize_step (stack : list string) (seg : string) : list string :=
  if String.eqb seg "" then stack
  else if String.eqb seg "." then stack
  else if String.eqb seg ".." then tl stack
  else seg :: stack.

Definition normalize (segs : list string) : list string :=
  rev (fold_left normalize_step segs []).

Fixpoint join (segs : list string) : string :=
  match segs with
  | [] => EmptyString
  | [seg] => seg
  | seg :: rest => seg ++ "/" ++ join rest
  end.

(** [path.resolve(p)] with the working directory [cwd] (itself absolute):
    a relative [p] is taken below [cwd], the result is absolute,
    normalised and without a trailing separator. *)
Definition resolve (cwd p : string) : string :=
  let full := if JsString.startsWith p "/" then p
              else if String.eqb p "" then cwd
              else cwd ++ "/" ++ p in
  "/" ++ join (normalize (segments full)).

End NodePath.

(** ** JavaScript [Map] with string keys *)

Module JsMap.

Definition t (V : Type) : Type := list (string * V).

Definition empty {V : Type} : t V := [].

Fixpoint get {V : Type} (m : t V) (k : string) : option V :=
  match m with
  | [] => None
  | (k', v) :: m' => if String.eqb k' k then Some v else get m' k
  end.

Definition has {V : Type} (m : t V) (k : string) : bool :=
  match get m k with
  | Some _ => true
  | None => false
  end.

(** [m.set(k, v)]: a present key keeps its place in the iteration order
    and takes the new value, an absent key is appended. *)
Fixpoint set {V : Type} (m : t V) (k : string) (v : V) : t V :=
  match m with
  | [] => [(k, v)]
  | (k', v') :: m' =>
      if String.eqb k' k then (k', v) :: m' else (k', v') :: set m' k v
  end.

Definition clear {V : Type} (m : t V) : t V := [].

Definition keys {V : Type} (m : t V) : list string := map fst m.

Definition values {V : Type} (m : t V) : list V := map snd m.

End JsMap.

(** ** Vinyl objects, chunks and thrown values *)

(** A Vinyl file as far as the bundler reads and writes it: the path
    history (the current path is its last element, the path the file was
    created with its first), the contents, and the [Precedence] field of
    [VinylExtension], absent until [_transform] sets it and again after
    [_flush] deletes it. *)
Record Vinyl : Type := mkVinyl {
  history : list string;
  contents : string;
  Precedence : option nat
}.

(** The getter of [file.path]: [undefined] for a file without history. *)
Definition get_path (f : Vinyl) : option string :=
  last (map Some (history f)) None.

(** What a [throw] or a rejected promise carries: a [TypeError] or an
    [Error] with its message, or the reason of a rejection, given by the
    message it has (empty for a reason without a message, such as
    [new Error()] or [undefined]). *)
Inductive Thrown : Type :=
| TypeError (message : string)
| JsError (message : string)
| Rejected (reason : string).

Definition message_of (e : Thrown) : string :=
  match e with
  | TypeError message => message
  | JsError message => message
  | Rejected reason => reason
  end.

Definition option_string_eqb (a b : option string) : bool :=
  match a, b with
  | Some x, Some y => String.eqb x y
  | None, None => true
  | _, _ => false
  end.

(** The setter of [file.path]: it throws on a value that is not a string
    and records a new, non-empty path that differs from the current one.
    (Vinyl normalises the value first; the bundler only assigns the
    file's own path or a result of [path.resolve], which are normal.) *)
Definition with_path (s : string) (f : Vinyl) : Vinyl :=
  if negb (String.eqb s "") && negb (option_string_eqb (Some s) (get_path f))
  then mkVinyl (history f ++ [s])%list (contents f) (Precedence f)
  else f.

Definition set_path (p : option string) (f : Vinyl) : Thrown + Vinyl :=
  match p with
  | None => inl (JsError "path should be a string.")
  | Some s => inr (with_path s f)
  end.

Definition set_Precedence (p : option nat) (f : Vinyl) : Vinyl :=
  mkVinyl (history f) (contents f) p.

(** Objects are references into the heap. *)
Definition ref : Type := nat.

Definition Heap : Type := ref -> Vinyl.

Definition store (h : Heap) (r : ref) (f : Vinyl) : Heap :=
  fun r' => if Nat.eqb r' r then f else h r'.

(** A stream chunk ([any]): a Vinyl object or anything else. *)
Inductive Chunk : Type :=
| CVinyl (r : ref)
| COther (payload : string).

Definition isVinyl (chunk : Chunk) : bool :=
  match chunk with
  | CVinyl _ => true
  | COther _ => false
  end.

(** A [PluginError] instance: the plugin's name and the fault it wraps. *)
Record PluginError : Type := mkPluginError {
  plugin : string;
  cause : Thrown
}.

(** [new PluginError(plugin, error)] of the plugin-error package: the
    constructor itself throws when the plugin name is empty and when the
    wrapped fault has no message. *)
Definition new_PluginError (plugin : string) (error : Thrown) : Thrown + PluginError :=
  if String.eqb plugin "" then inl (JsError "Missing plugin name")
  else if String.eqb (message_of error) "" then inl (JsError "Missing error message")
  else inr (mkPluginError plugin error).

(** [a < b] on values that are numbers or [undefined]. *)
Definition lessThan (a b : option nat) : bool :=
  match a, b with
  | Some x, Some y => Nat.ltb x y
  | _, _ => false
  end.

(** ** What the bundler takes from its surroundings

    [PluginName] (./plugin-details, a name and so not empty), the working
    directory of the process, the type of the bundler stream factories the host supplies,
    and [BundlesProcessor] (./bundles-processor).  The processor is given
    the table of resolved files, one bundle map and one factory; once
    awaited it yields the chunks to push and a map from bundle name to
    output paths, or rejects.  It may create and change objects, so it
    returns the heap; it reads the table without changing it (the table
    is mutated by the bundler alone). *)
Class Host : Type := {
  PluginName : string;
  PluginName_given : String.eqb PluginName "" = false;
  cwd : string;
  BundlerStreamFactory : Type;
  BundlesProcessor :
    Heap -> JsMap.t ref -> JsMap.t (list string) -> BundlerStreamFactory ->
    (Thrown + (list Chunk * JsMap.t (list string))) * Heap
}.

(** ** Objects as dictionaries: the order of [for]-[in] *)

Module JsObject.

Definition digit (c : ascii) : option N :=
  let n := N_of_ascii c in
  if (N.leb 48 n && N.leb n 57)%bool then Some (n - 48)%N else None.

Fixpoint digits (s : string) (acc : N) : option N :=
  match s with
  | EmptyString => Some acc
  | String c rest =>
      match digit c with
      | Some d => digits rest (10 * acc + d)%N
      | None => None
      end
  end.

(** The array index a property key stands for, if any: the key is the
    decimal numeral, without leading zero, of a number below 2^32 - 1. *)
Definition array_index (key : string) : option N :=
  match key with
  | EmptyString => None
  | String c rest =>
      if (Ascii.eqb c "0" && negb (String.eqb rest ""))%bool then None
      else match digits key 0 with
           | Some n => if N.ltb n 4294967295 then Some n else None
           | None => None
           end
  end.

Fixpoint insert_by_index {V : Type} (e : N * V) (l : list (N * V)) : list (N * V) :=
  match l with
  | [] => [e]
  | x :: l' => if N.leb (fst e) (fst x) then e :: l else x :: insert_by_index e l'
  end.

Definition sort_by_index {V : Type} (l : list (N * V)) : list (N * V) :=
  fold_right insert_by_index [] l.

(** The properties whose key is an array index, with the index. *)
Definition indexed {V : Type} (entries : list (string * V)) : list (N * (string * V)) :=
  flat_map (fun e => match array_index (fst e) with
                     | Some n => [(n, e)]
                     | None => []
                     end) entries.

(** The other properties, in the order they were written. *)
Definition named {V : Type} (entries : list (string * V)) : list (string * V) :=
  filter (fun e => match array_index (fst e) with
                   | Some _ => false
                   | None => true
                   end) entries.

(** The order in which [for (const name in object)] visits the own
    properties of a plain object: the array indices in ascending order,
    then the other keys in the order they were written. *)
Definition for_in_order {V : Type} (entries : list (string * V)) : list (string * V) :=
  (map snd (sort_by_index (indexed entries)) ++ named entries)%list.

Fixpoint has_own {V : Type} (entries : list (string * V)) (key : string) : bool :=
  match entries with
  | [] => false
  | (k, _) :: rest => (String.eqb k key || has_own rest key)%bool
  end.

End JsObject.

(** ** Raw configuration (src/config/config.ts and the fields the
    constructor reads) *)

Module RawConfig.

Record Bundle : Type := mkBundle {
  scripts : option (list string);
  styles : option (list string)
}.

Record t : Type := mk {
  bundle : option (list (string * Bundle));
  PathTransforms : option (list (string * string));
  PathTransformBasePath : option string;
  BundlesBasePath : option string
}.

End RawConfig.

(** ** The bundler *)

Section BundlerModel.

Context {host : Host}.

(** The [Bundlers] interface: one factory for scripts, one for styles. *)
Record Bundlers : Type := mkBundlers {
  Scripts : BundlerStreamFactory;
  Styles : BundlerStreamFactory
}.

(** The fields of a [Bundler] instance; [joiner] is the field
    [this.Bundlers], under the name of the constructor's argument. *)
Record Bundler : Type := mkBundler {
  ResolvedFiles : JsMap.t ref;
  PathTransforms : list (string * string);
  ScriptBundles : JsMap.t (list string);
  StyleBundles : JsMap.t (list string);
  joiner : Bundlers;
  ResultsMap : JsMap.t (list string)
}.

(** Everything a method can read or change: the heap of Vinyl objects,
    the instance, the chunks pushed to the readable side, and the calls
    of the [callback] (without an error or with one) in order. *)
Record World : Type := mkWorld {
  heap : Heap;
  this : Bundler;
  readable : list Chunk;
  callbacks : list (option PluginError)
}.

Definition with_heap (h : Heap) (w : World) : World :=
  mkWorld h (this w) (readable w) (callbacks w).

Definition with_ResolvedFiles (m : JsMap.t ref) (w : World) : World :=
  let b := this w in
  mkWorld (heap w)
    (mkBundler m (PathTransforms b) (ScriptBundles b) (StyleBundles b)
       (joiner b) (ResultsMap b))
    (readable w) (callbacks w).

Definition with_ResultsMap (m : JsMap.t (list string)) (w : World) : World :=
  let b := this w in
  mkWorld (heap w)
    (mkBundler (ResolvedFiles b) (PathTransforms b) (ScriptBundles b)
       (StyleBundles b) (joiner b) m)
    (readable w) (callbacks w).

(** *** The constructor *)

Definition resolvePath (p : string) : string := NodePath.resolve cwd p.

(** [!s] is false exactly for a non-empty string. *)
Definition or_cwd (s : option string) : string :=
  match s with
  | Some s' => if String.eqb s' "" then cwd else s'
  | None => cwd
  end.

Definition absolute_transforms (base : string)
    (transforms : list (string * string)) : list (string * string) :=
  map (fun '(oldPath, newPath) =>
         (resolvePath (base ++ "/" ++ oldPath),
          resolvePath (base ++ "/" ++ newPath)))
      transforms.

Definition absolute_paths (base : string) (paths : list string) : list string :=
  map (fun path => resolvePath (base ++ "/" ++ path)) paths.

Definition add_bundle (base : string)
    (acc : JsMap.t (list string) * JsMap.t (list string))
    (entry : string * RawConfig.Bundle)
    : JsMap.t (list string) * JsMap.t (list string) :=
  let '(name, bundle) := entry in
  let scriptBundles :=
    match RawConfig.scripts bundle with
    | Some paths => JsMap.set (fst acc) name (absolute_paths base paths)
    | None => fst acc
    end in
  let styleBundles :=
    match RawConfig.styles bundle with
    | Some paths => JsMap.set (snd acc) name (absolute_paths base paths)
    | None => snd acc
    end in
  (scriptBundles, styleBundles).

(** The instance the constructor builds when it completes.  The bundles
    are visited in the order of [for]-[in]. *)
Definition new_Bundler (config : RawConfig.t) (joiner : Bundlers) : Bundler :=
  let transforms :=
    match RawConfig.PathTransforms config with
    | Some ts => absolute_transforms (or_cwd (RawConfig.PathTransformBasePath config)) ts
    | None => []
    end in
  let bundles :=
    match RawConfig.bundle config with
    | Some bs => fold_left (add_bundle (or_cwd (RawConfig.BundlesBasePath config)))
                   (JsObject.for_in_order bs) (JsMap.empty, JsMap.empty)
    | None => (JsMap.empty, JsMap.empty)
    end in
  mkBundler JsMap.empty transforms (fst bundles) (snd bundles) joiner JsMap.empty.

(** [new Bundler(config, joiner)].  Line 79 calls
    [config.bundle.hasOwnProperty(name)]: when a bundle is itself named
    [hasOwnProperty], that property is the bundle and not the method, and
    the call throws in the first round of the loop. *)
Definition Bundler_constructor (config : RawConfig.t) (joiner : Bundlers)
    : Thrown + Bundler :=
  match RawConfig.bundle config with
  | Some bs =>
      if JsObject.has_own bs "hasOwnProperty"
      then inl (TypeError "config.bundle.hasOwnProperty is not a function")
      else inr (new_Bundler config joiner)
  | None => inr (new_Bundler config joiner)
  end.

(** *** [ResolveVirtualPath] *)

(** The loop over [this.PathTransforms.entries()], from position [index]
    on: the first pair whose old path starts the path decides. *)
Fixpoint ResolveVirtualPath_from (index : nat)
    (transforms : list (string * string)) (path : string) : string * nat :=
  match transforms with
  | [] => (path, 0)
  | (oldPathStart, newPathStart) :: rest =>
      if JsString.startsWith path oldPathStart
      then (resolvePath (JsString.replace path oldPathStart newPathStart), index)
      else ResolveVirtualPath_from (S index) rest path
  end.

Definition ResolveVirtualPath (transforms : list (string * string))
    (path : string) : string * nat :=
  ResolveVirtualPath_from 0 transforms path.

(** The call as [_transform] makes it, on [chunk.path], which is
    [undefined] for a file without history: [path.startsWith] then throws
    as soon as there is a transform to try. *)
Definition ResolveVirtualPath_call (transforms : list (string * string))
    (path : option string) : Thrown + (option string * nat) :=
  match path with
  | Some p =>
      let '(virtualPath, precedence) := ResolveVirtualPath transforms p in
      inr (Some virtualPath, precedence)
  | None =>
      match transforms with
      | [] => inr (None, 0)
      | _ :: _ => inl (TypeError "Cannot read properties of undefined (reading 'startsWith')")
      end
  end.

(** *** The table of resolved files *)

(** Lines 141 to 145: the file at [r], its virtual path and precedence
    already assigned, enters [ResolvedFiles] unless the path is taken by
    a file whose precedence is not below its own. *)
Definition upsert (h : Heap) (table : JsMap.t ref) (r : ref) : JsMap.t ref :=
  match get_path (h r) with
  | Some path =>
      if JsMap.has table path then
        if lessThan
             (match JsMap.get table path with
              | Some incumbent => Precedence (h incumbent)
              | None => None
              end)
             (Precedence (h r))
        then JsMap.set table path r
        else table
      else JsMap.set table path r
  | None => table
  end.

(** *** Effects *)

Definition M (A : Type) : Type := World -> (Thrown + A) * World.

Definition ret {A : Type} (a : A) : M A := fun w => (inr a, w).

Definition bind {A B : Type} (c : M A) (k : A -> M B) : M B :=
  fun w =>
    match c w with
    | (inr a, w') => k a w'
    | (inl e, w') => (inl e, w')
    end.

Definition throw {A : Type} (e : Thrown) : M A := fun w => (inl e, w).

Definition try_catch {A : Type} (body : M A) (handler : Thrown -> M A) : M A :=
  fun w =>
    match body w with
    | (inr a, w') => (inr a, w')
    | (inl e, w') => handler e w'
    end.

Definition lift {A : Type} (r : Thrown + A) : M A :=
  match r with
  | inr a => ret a
  | inl e => throw e
  end.

Definition load (r : ref) : M Vinyl := fun w => (inr (heap w r), w).

Definition save (r : ref) (f : Vinyl) : M unit :=
  fun w => (inr tt, with_heap (store (heap w) r f) w).

Definition self : M Bundler := fun w => (inr (this w), w).

(** [this.push(chunk)] *)
Definition push (chunk : Chunk) : M unit :=
  fun w => (inr tt, mkWorld (heap w) (this w) (readable w ++ [chunk])%list (callbacks w)).

(** [callback()] and [callback(error)] *)
Definition callback (error : option PluginError) : M unit :=
  fun w => (inr tt, mkWorld (heap w) (this w) (readable w) (callbacks w ++ [error])%list).

Fixpoint for_each {A : Type} (body : A -> M unit) (l : list A) : M unit :=
  match l with
  | [] => ret tt
  | a :: l' => bind (body a) (fun _ => for_each body l')
  end.

End BundlerModel.

Declare Scope js_scope.
Notation "x <- c ;; k" := (bind c (fun x => k))
  (at level 61, c at next level, right associativity) : js_scope.
Notation "c ;; k" := (bind c (fun _ => k))
  (at level 61, right associativity) : js_scope.
Local Open Scope js_scope.

Section BundlerMethods.

Context {host : Host}.

(** *** [_transform] *)

(** The [try] block for a Vinyl chunk, up to the table update: the chunk
    itself is given its virtual path and precedence, then offered to the
    table. *)
Definition collect (r : ref) : M unit :=
  file <- load r ;;
  b <- self ;;
  resolved <- lift (ResolveVirtualPath_call (PathTransforms b) (get_path file)) ;;
  file' <- lift (set_path (fst resolved) file) ;;
  save r (set_Precedence (Some (snd resolved)) file') ;;
  (fun w => (inr tt, with_ResolvedFiles (upsert (heap w) (ResolvedFiles (this w)) r) w)).

(** The file a Vinyl chunk has become when [_transform] offers it to the
    table. *)
Definition resolved_file (transforms : list (string * string)) (p : string) (f : Vinyl)
    : Vinyl :=
  set_Precedence (Some (snd (ResolveVirtualPath transforms p)))
    (with_path (fst (ResolveVirtualPath transforms p)) f).

Definition _transform_try (chunk : Chunk) : M unit :=
  match chunk with
  | CVinyl r => collect r
  | COther _ => push chunk
  end ;;
  callback None.

(** The [catch] block of both methods:
    [callback(new PluginError(PluginName, error))]. *)
Definition report (error : Thrown) : M unit :=
  wrapped <- lift (new_PluginError PluginName error) ;;
  callback (Some wrapped).

Definition _transform (chunk : Chunk) : M unit :=
  try_catch (_transform_try chunk) report.

(** *** [_flush] *)

Definition await_BundlesProcessor
    (bundles : Bundler -> JsMap.t (list string))
    (factory : Bundlers -> BundlerStreamFactory)
    : M (list Chunk * JsMap.t (list string)) :=
  fun w =>
    let '(outcome, h) :=
      BundlesProcessor (heap w) (ResolvedFiles (this w)) (bundles (this w))
        (factory (joiner (this w))) in
    (outcome, with_heap h w).

(** [for (const [name, paths] of resultsMap) this.ResultsMap.set(name, paths)] *)
Definition record_results (resultsMap : JsMap.t (list string)) : M unit :=
  for_each
    (fun entry : string * list string =>
       fun w => (inr tt, with_ResultsMap (JsMap.set (ResultsMap (this w)) (fst entry) (snd entry)) w))
    resultsMap.

(** One round of the last loop: [delete file.Precedence; this.push(file)] *)
Definition release (entry : string * ref) : M unit :=
  file <- load (snd entry) ;;
  save (snd entry) (set_Precedence None file) ;;
  push (CVinyl (snd entry)).

Definition _flush_try : M unit :=
  scripts <- await_BundlesProcessor ScriptBundles Scripts ;;
  for_each push (fst scripts) ;;
  record_results (snd scripts) ;;
  styles <- await_BundlesProcessor StyleBundles Styles ;;
  for_each push (fst styles) ;;
  record_results (snd styles) ;;
  b <- self ;;
  for_each release (ResolvedFiles b) ;;
  (fun w => (inr tt, with_ResolvedFiles (JsMap.clear (ResolvedFiles (this w))) w)) ;;
  callback None.

Definition _flush : M unit :=
  try_catch _flush_try report.

(** Writing a sequence of chunks and ending the stream. *)
Definition write_all (chunks : list Chunk) : M unit :=
  for_each _transform chunks.

Definition run (chunks : list Chunk) : M unit :=
  write_all chunks ;; _flush.

(** A fresh stream over a heap. *)
Definition start (h : Heap) (b : Bundler) : World := mkWorld h b [] [].

End BundlerMethods.

(** ** What the loops of [_flush] leave behind *)

(** The results of one pass written over a map. *)
Definition recorded (resultsMap into : JsMap.t (list string)) : JsMap.t (list string) :=
  fold_left (fun m entry => JsMap.set m (fst entry) (snd entry)) resultsMap into.

(** The heap after [delete file.Precedence] on each of the files. *)
Definition stripped (files : list ref) (h : Heap) : Heap :=
  fold_left (fun h' r => store h' r (set_Precedence None (h' r))) files h.

(** ** A processor and factories to run the bundler with *)

Module Processor.

(** What a bundler stream factory does once its stream is drained: from
    the source files and the bundle name, the chunks it emits (or a
    fault), and the heap with the objects it created. *)
Definition Factory : Type :=
  Heap -> list ref -> string -> (Thrown + list Chunk) * Heap.

(** The path a file was created with. *)
Definition original_path (f : Vinyl) : option string := hd_error (history f).

Definition listed (paths : list string) (f : Vinyl) : bool :=
  match original_path f with
  | Some p => existsb (String.eqb p) paths
  | None => false
  end.

(** The resolved files whose original path is on the bundle's list. *)
Definition select (h : Heap) (table : JsMap.t ref) (paths : list string) : list ref :=
  filter (fun r => listed paths (h r)) (JsMap.values table).

Definition chunk_paths (h : Heap) (chunks : list Chunk) : list string :=
  flat_map (fun chunk =>
              match chunk with
              | CVinyl r => match get_path (h r) with
                            | Some p => [p]
                            | None => []
                            end
              | COther _ => []
              end)
           chunks.

(** Modelled from the spec: [BundlesProcessor] of ./bundles-processor,
    which is not among the sources.  For each bundle name in order it
    selects from the table every resolved file whose original path is
    listed under the bundle, invokes the factory with these files and the
    bundle name, collects every chunk the factory produces and records
    the paths of the produced files under the bundle name. *)
Fixpoint process (factory : Factory) (h : Heap) (table : JsMap.t ref)
    (bundles : JsMap.t (list string))
    (chunks : list Chunk) (results : JsMap.t (list string))
    : (Thrown + (list Chunk * JsMap.t (list string))) * Heap :=
  match bundles with
  | [] => (inr (chunks, results), h)
  | (name, paths) :: rest =>
      match factory h (select h table paths) name with
      | (inl e, h') => (inl e, h')
      | (inr produced, h') =>
          process factory h' table rest (chunks ++ produced)%list
            (JsMap.set results name (chunk_paths h' produced))
      end
  end.

Definition BundlesProcessor (h : Heap) (table : JsMap.t ref)
    (bundles : JsMap.t (list string)) (factory : Factory)
    : (Thrown + (list Chunk * JsMap.t (list string))) * Heap :=
  process factory h table bundles [] JsMap.empty.

(** A factory that joins its sources into one new file, named after the
    bundle with the extension [ext] and created at [alloc name]; without
    sources it emits nothing. *)
Definition concat (alloc : string -> ref) (ext : string) : Factory :=
  fun h sources name =>
    match sources with
    | [] => (inr [], h)
    | _ :: _ =>
        let out := mkVinyl [name ++ ext]
                     (String.concat "" (map (fun r => contents (h r)) sources))
                     None in
        (inr [CVinyl (alloc name)], store h (alloc name) out)
    end.

(** A factory whose stream fails. *)
Definition failing (reason : string) : Factory :=
  fun h _ _ => (inl (Rejected reason), h).

End Processor.

(** A host on a POSIX machine, working in [/work]. *)
Definition sample_host : Host := {|
  PluginName := "gulp-bundle-assets";
  PluginName_given := eq_refl;
  cwd := "/work";
  BundlerStreamFactory := Processor.Factory;
  BundlesProcessor := Processor.BundlesProcessor
|}.

(** ** The configuration model *)

Module ConfigModel.

(** Configuration data as JavaScript values; an object keeps its keys in
    insertion order. *)
#[local] Unset Elimination Schemes.
Inductive Value : Type :=
| VBool (b : bool)
| VString (s : string)
| VArray (items : list Value)
| VObject (fields : list (string * Value)).
#[local] Set Elimination Schemes.

(** What [new ConfigModel(source, options)] is given: a plain object, or
    a file whose contents, evaluated as a module, export one. *)
Inductive Source : Type :=
| Plain (config : Value)
| File (base : string) (exports : Value).

Record Options : Type := mkOptions { options_base : option string }.

Record Config : Type := mkConfig {
  bundle : option Value;
  copy : option Value;
  base : string
}.

Inductive ConfigurationShapeError : Type :=
| ShapeError (message : string).

Definition quote : string := String (Ascii.ascii_of_nat 34) EmptyString.

(** The message the unit tests match. *)
Definition shape_message : string :=
  "Configuration file should be in the form " ++ quote
  ++ "{ bundle: {}, copy: {} }" ++ quote.

Fixpoint lookup (key : string) (fields : list (string * Value)) : option Value :=
  match fields with
  | [] => None
  | (k, v) :: rest => if String.eqb k key then Some v else lookup key rest
  end.

Definition resolve_source (source : Source) : Value :=
  match source with
  | Plain config => config
  | File _ exports => exports
  end.

(** Modelled from the spec: the constructor of the configuration model
    (lib/model/config), of which only the unit tests are among the
    sources.  Construction fails with the shape error if, after resolving
    the source, the result lacks both a [bundle] key and a [copy] key
    (section 4.1; the unit test "when given config with no env" builds a
    model from a configuration that has [bundle] and no [copy]).  The
    base is [options.base] when given and [.] otherwise, as the unit
    tests have it for plain and file-backed sources alike. *)
Definition construct (source : option Source) (options : option Options)
    : ConfigurationShapeError + Config :=
  match source with
  | None => inl (ShapeError shape_message)
  | Some src =>
      match resolve_source src with
      | VObject fields =>
          match lookup "bundle" fields, lookup "copy" fields with
          | None, None => inl (ShapeError shape_message)
          | b, c =>
              inr (mkConfig b c
                     (match options with
                      | Some (mkOptions (Some dir)) => dir
                      | _ => "."
                      end))
          end
      | _ => inl (ShapeError shape_message)
      end
  end.

(** The environment names one entry of an [options] object contributes:
    none for a boolean, the name for a string, each name in order for a
    sequence of strings. *)
Definition entry_environments (v : Value) : list string :=
  match v with
  | VString name => [name]
  | VArray items =>
      flat_map (fun item => match item with
                            | VString name => [name]
                            | _ => []
                            end) items
  | _ => []
  end.

Definition options_environments (options : Value) : list string :=
  match options with
  | VObject entries => flat_map (fun entry => entry_environments (snd entry)) entries
  | _ => []
  end.

(** Every environment name referenced by an [options] value anywhere
    under [v], depth first and top to bottom, with repetitions.  The
    fields of an object are visited in insertion order, which for a
    bundle written as in the documented example is [scripts], [styles],
    [options]; only a field named [options] contributes names. *)
Fixpoint referenced (v : Value) : list string :=
  match v with
  | VObject fields =>
      (fix fields_referenced (fs : list (string * Value)) : list string :=
         match fs with
         | [] => []
         | (key, x) :: rest =>
             ((if String.eqb key "options" then options_environments x
               else referenced x)
              ++ fields_referenced rest)%list
         end) fields
  | VArray items =>
      (fix items_referenced (xs : list Value) : list string :=
         match xs with
         | [] => []
         | x :: rest => (referenced x ++ items_referenced rest)%list
         end) items
  | _ => []
  end.

(** The first occurrence of every name, in order. *)
Fixpoint first_seen (names : list string) : list string :=
  match names with
  | [] => []
  | name :: rest =>
      name :: filter (fun other => negb (String.eqb other name)) (first_seen rest)
  end.

Definition referenced_environments (config : Config) : list string :=
  match bundle config with
  | Some b => referenced b
  | None => []
  end.

(** Modelled from the spec: [getAllEnvironments] of the configuration
    model (lib/model/config, not among the sources): the distinct
    environment names referenced by any [options] value under [bundle],
    in first-seen, depth-first, top-to-bottom order. *)
Definition getAllEnvironments (config : Config) : list string :=
  first_seen (referenced_environments config).

(** No [options] entry anywhere under [v] is a string or holds one. *)
Fixpoint environment_free (v : Value) : bool :=
  match v with
  | VObject fields =>
      (fix fields_free (fs : list (string * Value)) : bool :=
         match fs with
         | [] => true
         | (key, x) :: rest =>
             (if String.eqb key "options"
              then match options_environments x with [] => true | _ => false end
              else environment_free x)
             && fields_free rest
         end) fields
  | VArray items =>
      (fix items_free (xs : list Value) : bool :=
         match xs with
         | [] => true
         | x :: rest => environment_free x && items_free rest
         end) items
  | _ => true
  end.

(** The position of the first occurrence of [name] (the length of the
    list when there is none). *)
Fixpoint position (name : string) (names : list string) : nat :=
  match names with
  | [] => 0
  | n :: rest => if String.eqb n name then 0 else S (position name rest)
  end.

(** A source has the key [key] once resolved. *)
Definition has_key (key : string) (source : Source) : bool :=
  match resolve_source source with
  | VObject fields => match lookup key fields with Some _ => true | None => false end
  | _ => false
  end.

End ConfigModel.

(** ** Sample data *)

Module Samples.

(** The configuration of the unit test "when given complex config". *)
Definition complex_config : ConfigModel.Value :=
  let src_min a b :=
    ConfigModel.VObject [("src", ConfigModel.VString a); ("minSrc", ConfigModel.VString b)] in
  let names l := ConfigModel.VArray (map ConfigModel.VString l) in
  ConfigModel.VObject [
    ("bundle", ConfigModel.VObject [
       ("vendor", ConfigModel.VObject [
          ("scripts", ConfigModel.VArray [
             src_min "./bower_components/jquery/jquery.js"
                     "./bower_components/jquery/jquery.min.js";
             ConfigModel.VString "./bower_components/spin/spin.js"]);
          ("styles", src_min "./bower_components/bootstrap/dist/css/bootstrap.css"
                             "./bower_components/bootstrap/dist/css/bootstrap.min.css");
          ("options", ConfigModel.VObject [
             ("useMin", names ["production"; "staging"]);
             ("uglify", ConfigModel.VBool false);
             ("rev", ConfigModel.VBool true)])]);
       ("article", ConfigModel.VObject [
          ("scripts", ConfigModel.VString "./lib/article/**/*.js");
          ("styles", ConfigModel.VString "./lib/article/**/*.less");
          ("options", ConfigModel.VObject [
             ("uglify", ConfigModel.VString "production");
             ("rev", names ["production"; "staging"])])]);
       ("main", ConfigModel.VObject [
          ("scripts", names ["./js/controllers.js"]);
          ("styles", names ["./styles/**/*.css"]);
          ("options", ConfigModel.VObject [
             ("uglify", names ["production"; "staging"; "sat"]);
             ("rev", ConfigModel.VString "development")])])]);
    ("copy", ConfigModel.VArray [
       ConfigModel.VObject [
         ("src", ConfigModel.VString "./bower_components/bootstrap/dist/fonts/**/*.*");
         ("base", ConfigModel.VString "./bower_components/bootstrap/dist/")];
       ConfigModel.VString "./images/**/*.*"])].

(** The configuration of the unit test "when given config with no env":
    it has a [bundle] key and no [copy] key. *)
Definition no_env_config : ConfigModel.Value :=
  ConfigModel.VObject [
    ("bundle", ConfigModel.VObject [
       ("main", ConfigModel.VObject [("scripts", ConfigModel.VString "*.js")]);
       ("options", ConfigModel.VObject [
          ("uglify", ConfigModel.VBool false);
          ("rev", ConfigModel.VBool true)])])].

(** Three files on disk and otherwise files without a path. *)
Definition sample_heap : Heap :=
  fun r =>
    match r with
    | 0 => mkVinyl ["/a/app.js"] "A" None
    | 1 => mkVinyl ["/b/app.js"] "B" None
    | 2 => mkVinyl ["/a/site.css"] "C" None
    | _ => mkVinyl [] "" None
    end.

(** One bundle with a script and a style; files below [/b] override the
    files below [/a]. *)
Definition sample_config : RawConfig.t :=
  RawConfig.mk
    (Some [("main", RawConfig.mkBundle (Some ["a/app.js"]) (Some ["a/site.css"]))])
    (Some [("b", "a")])
    (Some "/")
    (Some "/").

Definition sample_joiner : Bundlers (host := sample_host) :=
  mkBundlers (host := sample_host)
    (Processor.concat (fun _ => 10) ".js")
    (Processor.concat (fun _ => 11) ".css").

Definition sample_bundler : Bundler (host := sample_host) :=
  new_Bundler sample_config sample_joiner.

Definition sample_world : World (host := sample_host) :=
  start sample_heap sample_bundler.

(** The same bundler with a styles factory whose stream fails. *)
Definition failing_world : World (host := sample_host) :=
  start sample_heap
    (new_Bundler sample_config
       (mkBundlers (host := sample_host)
          (Processor.concat (fun _ => 10) ".js")
          (Processor.failing "boom"))).

(** The same bundler with a styles factory whose stream fails with an
    error that has no message. *)
Definition silent_world : World (host := sample_host) :=
  start sample_heap
    (new_Bundler sample_config
       (mkBundlers (host := sample_host)
          (Processor.concat (fun _ => 10) ".js")
          (Processor.failing ""))).

(** Bundles of which two are named by array indices. *)
Definition indexed_config : RawConfig.t :=
  RawConfig.mk
    (Some [("b", RawConfig.mkBundle (Some ["b.js"]) None);
           ("10", RawConfig.mkBundle (Some ["ten.js"]) (Some ["ten.css"]));
           ("9", RawConfig.mkBundle (Some ["nine.js"]) None);
           ("a", RawConfig.mkBundle None (Some ["a.css"]))])
    None None (Some "/").

(** The table's files after both were written. *)
Definition collected_world : World (host := sample_host) :=
  snd (write_all [CVinyl 0; CVinyl 2] sample_world).

(** Two files resolved to one virtual path, the second through a
    transform at position 1. *)
Definition resolved_heap : Heap :=
  fun r =>
    match r with
    | 0 => mkVinyl ["/a/app.js"] "A" (Some 0)
    | _ => mkVinyl ["/b/app.js"; "/a/app.js"] "B" (Some 1)
    end.

(** A configuration whose only transform maps [/src] to the root. *)
Definition root_config : RawConfig.t :=
  RawConfig.mk None (Some [("src", "")]) (Some "/") None.

End Samples.

(** ** Vocabulary for whole streams and for the constructor *)

(** The objects among the chunks, in order of arrival. *)
Fixpoint chunk_refs (chunks : list Chunk) : list ref :=
  match chunks with
  | [] => []
  | CVinyl r :: rest => r :: chunk_refs rest
  | COther _ :: rest => chunk_refs rest
  end.

(** The chunks that are not Vinyl objects, in order of arrival. *)
Definition other_chunks (chunks : list Chunk) : list Chunk :=
  filter (fun chunk => negb (isVinyl chunk)) chunks.

(** A path segment without a separator. *)
Fixpoint no_slash (s : string) : bool :=
  match s with
  | EmptyString => true
  | String c s' => negb (Ascii.eqb c "/") && no_slash s'
  end.

(** A segment that [normalize] keeps. *)
Definition kept_segment (seg : string) : bool :=
  negb (String.eqb seg "") && negb (String.eqb seg ".")
  && negb (String.eqb seg "..") && no_slash seg.

Section Registration.

Context {host : Host}.

(** The bundles of a configuration that declare the given kind of paths,
    in declaration order, with the paths made absolute. *)
Definition declared (kind : RawConfig.Bundle -> option (list string))
    (base : string) (bundles : list (string * RawConfig.Bundle))
    : JsMap.t (list string) :=
  flat_map (fun entry : string * RawConfig.Bundle =>
              match kind (snd entry) with
              | Some paths => [(fst entry, absolute_paths base paths)]
              | None => []
              end)
           bundles.

End Registration.

Section Settled.

Context {host : Host}.

(** The state of a stream whose Vinyl chunks are distinct objects, as
    seen from the heap [h0] the stream started with; [written] tells the
    objects written so far.  Objects not yet written are as they were;
    every entry of the table is a written object, filed under the virtual
    path of the path it had in [h0] and carrying the precedence of that
    path; and the virtual path of every written object is held by a
    written object of the same virtual path whose precedence is not
    lower. *)
Definition settled (transforms : list (string * string)) (h0 : Heap)
    (written : ref -> Prop) (w : World) : Prop :=
  PathTransforms (this w) = transforms
  /\ NoDup (JsMap.keys (ResolvedFiles (this w)))
  /\ (forall r, ~ written r -> heap w r = h0 r)
  /\ (forall k r, In (k, r) (ResolvedFiles (this w)) ->
        written r
        /\ exists p0,
             get_path (h0 r) = Some p0
             /\ k = fst (ResolveVirtualPath transforms p0)
             /\ get_path (heap w r) = Some k
             /\ Precedence (heap w r) = Some (snd (ResolveVirtualPath transforms p0)))
  /\ (forall r p0, written r -> get_path (h0 r) = Some p0 ->
        exists holder q0,
          JsMap.get (ResolvedFiles (this w)) (fst (ResolveVirtualPath transforms p0))
          = Some holder
          /\ get_path (h0 holder) = Some q0
          /\ fst (ResolveVirtualPath transforms q0) = fst (ResolveVirtualPath transforms p0)
          /\ snd (ResolveVirtualPath transforms p0) <= snd (ResolveVirtualPath transforms q0)).

End Settled.

Section Arrival.

Context {host : Host}.

(** The virtual paths of the objects that have a path in [h0], in the
    order of the objects. *)
Definition virtual_paths (transforms : list (string * string)) (h0 : Heap)
    (files : list ref) : list string :=
  flat_map (fun r => match get_path (h0 r) with
                     | Some p => [fst (ResolveVirtualPath transforms p)]
                     | None => []
                     end)
           files.

End Arrival.

(** * Properties *)

(** ** Maps *)

Section MapFacts.

Context {V : Type}.

Implicit Types (m : JsMap.t V) (k : string) (v : V).

Lemma get_set_same m k v : JsMap.get (JsMap.set m k v) k = Some v.
Proof.
  induction m as [|[k' v'] m IH]; simpl.
  - now rewrite String.eqb_refl.
  - destruct (String.eqb k' k) eqn:E; simpl; rewrite E; auto.
Qed.

Lemma get_set_other m k k' v :
  k <> k' -> JsMap.get (JsMap.set m k v) k' = JsMap.get m k'.
Proof.
  intros Hne. induction m as [|[k0 v0] m IH]; simpl.
  - destruct (String.eqb_spec k k'); congruence.
  - destruct (String.eqb_spec k0 k) as [->|Hk]; simpl.
    + destruct (String.eqb_spec k k'); congruence.
    + now rewrite IH.
Qed.

Lemma set_absent m k v :
  JsMap.get m k = None -> JsMap.set m k v = (m ++ [(k, v)])%list.
Proof.
  induction m as [|[k' v'] m IH]; simpl; intros H; [reflexivity|].
  destruct (String.eqb k' k); [discriminate|]. now rewrite IH.
Qed.

Lemma keys_set_present m k v r0 :
  JsMap.get m k = Some r0 -> JsMap.keys (JsMap.set m k v) = JsMap.keys m.
Proof.
  induction m as [|[k' v'] m IH]; simpl; intros H; [discriminate|].
  destruct (String.eqb k' k); simpl; [reflexivity|]. now rewrite IH.
Qed.

Lemma get_none_not_in m k : JsMap.get m k = None -> ~ In k (JsMap.keys m).
Proof.
  induction m as [|[k' v'] m IH]; simpl; intros H; [tauto|].
  destruct (String.eqb_spec k' k); [discriminate|]. intros [?|?]; [congruence|].
  now apply IH.
Qed.

Lemma keys_set_NoDup m k v :
  NoDup (JsMap.keys m) -> NoDup (JsMap.keys (JsMap.set m k v)).
Proof.
  intros Hm. destruct (JsMap.get m k) as [r0|] eqn:E.
  - now rewrite (keys_set_present _ _ _ _ E).
  - rewrite (set_absent _ _ _ E). unfold JsMap.keys. rewrite map_app. simpl.
    apply NoDup_app; [exact Hm | repeat constructor; intros [] | ].
    intros x Hx [<-|[]]. exact (get_none_not_in _ _ E Hx).
Qed.

Lemma has_get m k :
  JsMap.has m k = match JsMap.get m k with Some _ => true | None => false end.
Proof. reflexivity. Qed.

End MapFacts.

(** ** The table of resolved files *)

Section TableFacts.

Implicit Types (h : Heap) (table : JsMap.t ref) (r : ref) (path : string).

Lemma set_set {V : Type} (m : JsMap.t V) (k : string) (v v' : V) :
  JsMap.set (JsMap.set m k v) k v' = JsMap.set m k v'.
Proof.
  induction m as [|[k' x] m IH]; simpl.
  - now rewrite String.eqb_refl.
  - destruct (String.eqb k' k) eqn:E; simpl; rewrite E; [reflexivity|].
    now rewrite IH.
Qed.

Lemma upsert_unfold h table r path :
  get_path (h r) = Some path ->
  upsert h table r =
    match JsMap.get table path with
    | None => JsMap.set table path r
    | Some incumbent =>
        if lessThan (Precedence (h incumbent)) (Precedence (h r))
        then JsMap.set table path r
        else table
    end.
Proof.
  intros Hp. unfold upsert. rewrite Hp, has_get.
  now destruct (JsMap.get table path).
Qed.

Lemma lessThan_irrefl (a : option nat) : lessThan a a = false.
Proof. destruct a; simpl; [apply Nat.ltb_irrefl | reflexivity]. Qed.

Lemma lessThan_spec (x y : nat) : lessThan (Some x) (Some y) = true <-> x < y.
Proof. simpl. apply Nat.ltb_lt. Qed.

(** After an upsert the path is taken, and not by a file of lower
    precedence than the one offered. *)
Lemma upsert_holder h table r path :
  get_path (h r) = Some path ->
  exists holder,
    JsMap.get (upsert h table r) path = Some holder
    /\ lessThan (Precedence (h holder)) (Precedence (h r)) = false.
Proof.
  intros Hp. rewrite (upsert_unfold _ _ _ _ Hp).
  destruct (JsMap.get table path) as [r0|] eqn:E.
  - destruct (lessThan (Precedence (h r0)) (Precedence (h r))) eqn:L.
    + exists r. rewrite get_set_same. split; [reflexivity | apply lessThan_irrefl].
    + exists r0. now split.
  - exists r. rewrite get_set_same. split; [reflexivity | apply lessThan_irrefl].
Qed.

Lemma upsert_keys_NoDup h table r :
  NoDup (JsMap.keys table) -> NoDup (JsMap.keys (upsert h table r)).
Proof.
  intros Hm. unfold upsert. destruct (get_path (h r)) as [path|]; [|exact Hm].
  destruct (JsMap.has table path); [|now apply keys_set_NoDup].
  match goal with |- context [if ?b then _ else _] => destruct b end;
    [now apply keys_set_NoDup | exact Hm].
Qed.

(** C1: a file offered to the table is inserted when its virtual path is
    free; when the path is taken it replaces the incumbent exactly when
    its precedence is strictly greater, and is dropped otherwise with the
    table unchanged.  Hence offering a file a second time, or another file
    of the same path and precedence, changes nothing (one entry, the
    first), and the paths of the table stay pairwise distinct. *)
Theorem upsert_by_precedence h table r path :
  get_path (h r) = Some path ->
  (JsMap.get table path = None ->
     upsert h table r = (table ++ [(path, r)])%list)
  /\ (forall incumbent p0 p,
        JsMap.get table path = Some incumbent ->
        Precedence (h incumbent) = Some p0 -> Precedence (h r) = Some p ->
        (p0 < p -> upsert h table r = JsMap.set table path r
                   /\ JsMap.get (upsert h table r) path = Some r)
        /\ (p <= p0 -> upsert h table r = table))
  /\ (forall r', get_path (h r') = Some path ->
                 Precedence (h r') = Precedence (h r) ->
                 upsert h (upsert h table r) r' = upsert h table r)
  /\ upsert h (upsert h JsMap.empty r) r = [(path, r)]
  /\ (NoDup (JsMap.keys table) -> NoDup (JsMap.keys (upsert h table r))).
Proof.
  intros Hp. split; [|split; [|split; [|split]]].
  - intros E. rewrite (upsert_unfold _ _ _ _ Hp), E. now apply set_absent.
  - intros incumbent p0 p Hget P0 P.
    rewrite (upsert_unfold _ _ _ _ Hp), Hget, P0, P. simpl. split.
    + intros Hlt. apply Nat.ltb_lt in Hlt. rewrite Hlt.
      split; [reflexivity | apply get_set_same].
    + intros Hle. apply Nat.ltb_ge in Hle. now rewrite Hle.
  - intros r' Hp' Hprec.
    destruct (upsert_holder h table r path Hp) as (holder & Hget & Hlt).
    rewrite (upsert_unfold h (upsert h table r) r' path Hp'), Hget, Hprec.
    now rewrite Hlt.
  - rewrite (upsert_unfold h JsMap.empty r path Hp). simpl.
    rewrite (upsert_unfold _ _ _ _ Hp). simpl. rewrite String.eqb_refl.
    now rewrite lessThan_irrefl.
  - apply upsert_keys_NoDup.
Qed.

(** C5: two files of one virtual path with precedences [p1 < p2] leave
    the same table in either order, and the table holds the [p2] file at
    the path unless it held a file of precedence [p2] or more before. *)
Theorem upsert_order_independent h table r1 r2 path p1 p2 :
  get_path (h r1) = Some path -> get_path (h r2) = Some path ->
  Precedence (h r1) = Some p1 -> Precedence (h r2) = Some p2 ->
  p1 < p2 ->
  upsert h (upsert h table r1) r2 = upsert h (upsert h table r2) r1
  /\ ((JsMap.get table path = None
       \/ exists incumbent p0, JsMap.get table path = Some incumbent
                               /\ Precedence (h incumbent) = Some p0 /\ p0 < p2) ->
      JsMap.get (upsert h (upsert h table r1) r2) path = Some r2
      /\ JsMap.get (upsert h (upsert h table r2) r1) path = Some r2).
Proof.
  intros H1 H2 P1 P2 Hlt.
  assert (L12 : lessThan (Some p1) (Some p2) = true) by now apply lessThan_spec.
  assert (L21 : lessThan (Some p2) (Some p1) = false)
    by (simpl; apply Nat.ltb_ge; lia).
  assert (Heq : upsert h (upsert h table r1) r2 = upsert h (upsert h table r2) r1).
  { rewrite (upsert_unfold h table r1 path H1), (upsert_unfold h table r2 path H2).
    destruct (JsMap.get table path) as [r0|] eqn:E.
    - rewrite P1, P2.
      destruct (Precedence (h r0)) as [p0|] eqn:P0; simpl.
      + destruct (Nat.ltb_spec p0 p1) as [A|A]; destruct (Nat.ltb_spec p0 p2) as [B|B];
          try lia.
        * rewrite (upsert_unfold _ _ r2 path H2), (upsert_unfold _ _ r1 path H1).
          rewrite !get_set_same, P1, P2, L12, L21. apply set_set.
        * rewrite (upsert_unfold _ _ r2 path H2), (upsert_unfold _ _ r1 path H1).
          rewrite get_set_same, E, P0, P1, P2, L21. simpl.
          now apply Nat.ltb_lt in B as ->.
        * rewrite (upsert_unfold _ _ r2 path H2), (upsert_unfold _ _ r1 path H1).
          rewrite E, P0, P1, P2. simpl.
          apply Nat.ltb_ge in A, B. now rewrite A, B.
      + rewrite (upsert_unfold _ _ r2 path H2), (upsert_unfold _ _ r1 path H1).
        now rewrite E, P0.
    - rewrite (upsert_unfold _ _ r2 path H2), (upsert_unfold _ _ r1 path H1).
      rewrite !get_set_same, P1, P2, L12, L21. apply set_set. }
  split; [exact Heq|].
  intros Hfree. rewrite <- Heq.
  enough (G : JsMap.get (upsert h (upsert h table r1) r2) path = Some r2)
    by now split.
  rewrite (upsert_unfold h (upsert h table r1) r2 path H2).
  destruct (upsert_holder h table r1 path H1) as (holder & Hget & Hnlt).
  rewrite Hget.
  assert (Hh : lessThan (Precedence (h holder)) (Precedence (h r2)) = true).
  { rewrite (upsert_unfold h table r1 path H1) in Hget.
    destruct Hfree as [E|(r0 & p0 & E & P0 & Hp0)]; rewrite E in Hget.
    - rewrite get_set_same in Hget. injection Hget as <-. now rewrite P1, P2.
    - destruct (lessThan (Precedence (h r0)) (Precedence (h r1))).
      + rewrite get_set_same in Hget. injection Hget as <-. now rewrite P1, P2.
      + rewrite E in Hget. injection Hget as <-. rewrite P0, P2.
        now apply lessThan_spec. }
  rewrite Hh. apply get_set_same.
Qed.

End TableFacts.

(** ** Strings and paths *)

Section StringFacts.

Lemma GetSubstitution_dollar_free (matched before after replacement : string) :
  JsString.dollar_free replacement = true ->
  JsString.GetSubstitution matched before after replacement = replacement.
Proof.
  induction replacement as [|c rest IH]; simpl; [reflexivity|].
  intros H. apply andb_true_iff in H as [Hc Hrest].
  apply negb_true_iff in Hc. rewrite Hc. now rewrite IH.
Qed.

Lemma split_first_prefix (s pat : string) :
  JsString.startsWith s pat = true ->
  JsString.split_first s pat = Some (EmptyString, JsString.drop (String.length pat) s).
Proof.
  intros H. destruct s; cbn [JsString.split_first]; now rewrite H.
Qed.

(** On a string that starts with the pattern, [replace] exchanges that
    prefix for the expansion of the replacement text. *)
Lemma replace_prefix (s pat replacement : string) :
  JsString.startsWith s pat = true ->
  JsString.replace s pat replacement =
    JsString.GetSubstitution pat "" (JsString.drop (String.length pat) s) replacement
    ++ JsString.drop (String.length pat) s.
Proof.
  intros H. unfold JsString.replace. now rewrite (split_first_prefix _ _ H).
Qed.

Lemma startsWith_app (p rest : string) : JsString.startsWith (p ++ rest) p = true.
Proof. induction p as [|c p IH]; simpl; [reflexivity|]. now rewrite Ascii.eqb_refl. Qed.

Lemma drop_app (p rest : string) : JsString.drop (String.length p) (p ++ rest) = rest.
Proof. induction p as [|c p IH]; simpl; auto. Qed.

End StringFacts.

(** ** [ResolveVirtualPath] *)

Section ResolveFacts.

Context {host : Host}.

Implicit Types (transforms : list (string * string)) (path : string).

Lemma ResolveVirtualPath_from_no_match transforms path index :
  (forall o n, In (o, n) transforms -> JsString.startsWith path o = false) ->
  ResolveVirtualPath_from index transforms path = (path, 0).
Proof.
  revert index. induction transforms as [|[o n] rest IH]; intros index H; simpl.
  - reflexivity.
  - rewrite (H o n (or_introl eq_refl)). apply IH.
    intros o' n' Hin. apply (H o' n'). now right.
Qed.

Lemma ResolveVirtualPath_from_first transforms path index i oldPathStart newPathStart :
  nth_error transforms i = Some (oldPathStart, newPathStart) ->
  JsString.startsWith path oldPathStart = true ->
  (forall j o n, j < i -> nth_error transforms j = Some (o, n) ->
                 JsString.startsWith path o = false) ->
  ResolveVirtualPath_from index transforms path =
    (resolvePath (JsString.replace path oldPathStart newPathStart), index + i).
Proof.
  revert index i.
  induction transforms as [|[o n] rest IH]; intros index i Hnth Hstart Hbefore.
  - destruct i; discriminate.
  - destruct i as [|i]; simpl in *.
    + injection Hnth as -> ->. rewrite Hstart. now rewrite Nat.add_0_r.
    + rewrite (Hbefore 0 o n (Nat.lt_0_succ i) eq_refl).
      rewrite (IH (S index) i Hnth Hstart).
      * f_equal. lia.
      * intros j o' n' Hj Hn. apply (Hbefore (S j) o' n'); [lia | exact Hn].
Qed.

(** C3, as the code has it: when some transform's old path starts the
    path, the first such transform decides; the precedence is its
    position, counted from 0, and, for a new path without a dollar sign,
    the virtual path is [path.resolve] of the path with the old prefix
    exchanged for the new one.  When no transform's old path starts the
    path, the path comes back unchanged with precedence 0. *)
Theorem ResolveVirtualPath_first_match transforms path :
  (forall i oldPathStart newPathStart,
      nth_error transforms i = Some (oldPathStart, newPathStart) ->
      JsString.startsWith path oldPathStart = true ->
      (forall j o n, j < i -> nth_error transforms j = Some (o, n) ->
                     JsString.startsWith path o = false) ->
      snd (ResolveVirtualPath transforms path) = i
      /\ (JsString.dollar_free newPathStart = true ->
          fst (ResolveVirtualPath transforms path) =
            resolvePath (newPathStart
                         ++ JsString.drop (String.length oldPathStart) path)))
  /\ ((forall o n, In (o, n) transforms -> JsString.startsWith path o = false) ->
      ResolveVirtualPath transforms path = (path, 0)).
Proof.
  split.
  - intros i o n Hnth Hstart Hbefore. unfold ResolveVirtualPath.
    rewrite (ResolveVirtualPath_from_first _ _ 0 i o n Hnth Hstart Hbefore). simpl.
    split; [reflexivity|]. intros Hfree.
    now rewrite (replace_prefix _ _ _ Hstart), GetSubstitution_dollar_free.
  - apply ResolveVirtualPath_from_no_match.
Qed.

(** The precedence of a file that matches the transform at position 0,
    and of a file that matches none. *)
Lemma ResolveVirtualPath_precedence_0 transforms path :
  (forall o n, nth_error transforms 0 = Some (o, n) ->
               JsString.startsWith path o = true ->
               snd (ResolveVirtualPath transforms path) = 0)
  /\ ((forall o n, In (o, n) transforms -> JsString.startsWith path o = false) ->
      snd (ResolveVirtualPath transforms path) = 0).
Proof.
  split.
  - intros o n Hnth Hstart. unfold ResolveVirtualPath.
    rewrite (ResolveVirtualPath_from_first _ _ 0 0 o n Hnth Hstart); [reflexivity|].
    intros j ? ? Hj. lia.
  - intros H. unfold ResolveVirtualPath.
    now rewrite (ResolveVirtualPath_from_no_match _ _ 0 H).
Qed.

End ResolveFacts.

(** ** Running the methods *)

Section RunFacts.

Context {host : Host}.

Implicit Types (w : World) (r : ref) (chunk : Chunk).

Lemma bind_ok {A B : Type} (c : M A) (k : A -> M B) w a w' :
  c w = (inr a, w') -> bind c k w = k a w'.
Proof. intros H. unfold bind. now rewrite H. Qed.

Lemma bind_thrown {A B : Type} (c : M A) (k : A -> M B) w e w' :
  c w = (inl e, w') -> bind c k w = (inl e, w').
Proof. intros H. unfold bind. now rewrite H. Qed.

Lemma report_message w (e : Thrown) :
  String.eqb (message_of e) "" = false ->
  report e w =
    (inr tt, mkWorld (heap w) (this w) (readable w)
               (callbacks w ++ [Some (mkPluginError PluginName e)])%list).
Proof.
  intros H. unfold report, bind, lift, new_PluginError.
  now rewrite PluginName_given, H.
Qed.

Lemma report_silent w (e : Thrown) :
  message_of e = "" ->
  report e w = (inl (JsError "Missing error message"), w).
Proof.
  intros H. unfold report, bind, lift, new_PluginError.
  now rewrite PluginName_given, H.
Qed.

Lemma for_each_push (chunks : list Chunk) w :
  for_each push chunks w =
    (inr tt, mkWorld (heap w) (this w) (readable w ++ chunks)%list (callbacks w)).
Proof.
  revert w. induction chunks as [|c chunks IH]; intros w; simpl.
  - unfold ret. rewrite app_nil_r. now destruct w.
  - unfold bind, push at 1. rewrite IH. simpl. now rewrite <- app_assoc.
Qed.

Lemma record_results_run (resultsMap : JsMap.t (list string)) w :
  record_results resultsMap w =
    (inr tt, with_ResultsMap (recorded resultsMap (ResultsMap (this w))) w).
Proof.
  revert w. unfold record_results, recorded.
  induction resultsMap as [|[name paths] rest IH]; intros w; simpl.
  - unfold ret, with_ResultsMap. now destruct w as [h [] rd cb].
  - unfold bind. rewrite IH. reflexivity.
Qed.

Lemma for_each_release (entries : JsMap.t ref) w :
  for_each release entries w =
    (inr tt,
     mkWorld (stripped (JsMap.values entries) (heap w)) (this w)
       (readable w ++ map CVinyl (JsMap.values entries))%list (callbacks w)).
Proof.
  revert w. induction entries as [|[path r] rest IH]; intros w; simpl.
  - unfold ret. rewrite app_nil_r. now destruct w.
  - unfold bind at 1, release, bind, load, save, push. simpl.
    rewrite IH. simpl. now rewrite <- app_assoc.
Qed.

Lemma stripped_at (files : list ref) (h : Heap) r :
  stripped files h r = if existsb (Nat.eqb r) files
                       then set_Precedence None (h r) else h r.
Proof.
  revert h. induction files as [|r' files IH]; intros h; simpl; [reflexivity|].
  unfold stripped in *. simpl. rewrite IH. unfold store.
  destruct (Nat.eqb_spec r r') as [->|Hne]; simpl.
  - now destruct (existsb (Nat.eqb r') files).
  - reflexivity.
Qed.

Lemma stripped_member (files : list ref) (h : Heap) r :
  In r files -> stripped files h r = set_Precedence None (h r).
Proof.
  intros Hin. rewrite stripped_at.
  assert (E : existsb (Nat.eqb r) files = true).
  { apply existsb_exists. exists r. split; [exact Hin | apply Nat.eqb_refl]. }
  now rewrite E.
Qed.

End RunFacts.

(** ** [_flush] *)

Section FlushFacts.

Context {host : Host}.

Implicit Types (w : World) (r : ref).

(** The world a successful flush leaves: the chunks of both passes and
    then the resolved files are on the readable side, both result maps
    are written over [ResultsMap] in turn, the resolved files have lost
    their precedence and the table is empty. *)
Lemma _flush_try_run w c1 m1 h1 c2 m2 h2 :
  BundlesProcessor (heap w) (ResolvedFiles (this w)) (ScriptBundles (this w))
    (Scripts (joiner (this w))) = (inr (c1, m1), h1) ->
  BundlesProcessor h1 (ResolvedFiles (this w)) (StyleBundles (this w))
    (Styles (joiner (this w))) = (inr (c2, m2), h2) ->
  _flush_try w =
    (inr tt,
     mkWorld (stripped (JsMap.values (ResolvedFiles (this w))) h2)
       (mkBundler [] (PathTransforms (this w)) (ScriptBundles (this w))
          (StyleBundles (this w)) (joiner (this w))
          (recorded m2 (recorded m1 (ResultsMap (this w)))))
       (readable w ++ c1 ++ c2
        ++ map CVinyl (JsMap.values (ResolvedFiles (this w))))%list
       (callbacks w ++ [None])%list).
Proof.
  intros H1 H2. unfold _flush_try.
  unfold bind at 1. unfold await_BundlesProcessor at 1. rewrite H1.
  unfold bind at 1. rewrite for_each_push.
  unfold bind at 1. rewrite record_results_run.
  unfold bind at 1. unfold await_BundlesProcessor. simpl. rewrite H2.
  unfold bind at 1. rewrite for_each_push.
  unfold bind at 1. rewrite record_results_run.
  unfold bind at 1, self. simpl.
  unfold bind at 1. rewrite for_each_release.
  unfold bind, callback. simpl.
  now rewrite <- !app_assoc.
Qed.

(** C4: when both passes succeed, [_flush] pushes the chunks of the
    scripts pass, then those of the styles pass, then every file of the
    table in the table's order, each without its precedence and
    otherwise as the passes left it; the table is empty afterwards and
    the callback is called once, without an error. *)
Theorem _flush_emission_order w c1 m1 h1 c2 m2 h2 :
  BundlesProcessor (heap w) (ResolvedFiles (this w)) (ScriptBundles (this w))
    (Scripts (joiner (this w))) = (inr (c1, m1), h1) ->
  BundlesProcessor h1 (ResolvedFiles (this w)) (StyleBundles (this w))
    (Styles (joiner (this w))) = (inr (c2, m2), h2) ->
  exists w',
    _flush w = (inr tt, w')
    /\ readable w' =
         (readable w ++ c1 ++ c2
          ++ map CVinyl (JsMap.values (ResolvedFiles (this w))))%list
    /\ (forall r, In r (JsMap.values (ResolvedFiles (this w))) ->
                  heap w' r = set_Precedence None (h2 r)
                  /\ Precedence (heap w' r) = None)
    /\ ResolvedFiles (this w') = JsMap.empty
    /\ callbacks w' = (callbacks w ++ [None])%list.
Proof.
  intros H1 H2. eexists. split.
  - unfold _flush, try_catch. rewrite (_flush_try_run _ _ _ _ _ _ _ H1 H2).
    reflexivity.
  - simpl. repeat split; try reflexivity.
    + now apply stripped_member.
    + now rewrite stripped_member.
Qed.

(** What [ResultsMap] holds for a name after a successful flush: the
    paths of the styles pass when the styles pass has the name, whatever
    the scripts pass recorded. *)
Lemma recorded_last (resultsMap into : JsMap.t (list string)) name paths :
  NoDup (JsMap.keys resultsMap) ->
  JsMap.get resultsMap name = Some paths ->
  JsMap.get (recorded resultsMap into) name = Some paths.
Proof.
  revert into. unfold recorded.
  induction resultsMap as [|[k v] rest IH]; intros into Hnd Hget; simpl in *.
  - discriminate.
  - inversion Hnd as [|? ? Hnotin Hnd']; subst.
    destruct (String.eqb_spec k name) as [->|Hne].
    + injection Hget as ->. clear IH.
      assert (G : forall m, JsMap.get m name = Some paths ->
                  JsMap.get (fold_left (fun m entry => JsMap.set m (fst entry) (snd entry))
                               rest m) name = Some paths).
      { clear Hnd' Hnd. revert Hnotin.
        induction rest as [|[k' v'] rest IHr]; intros Hnotin m Hm; simpl.
        - exact Hm.
        - apply IHr.
          + intros Hin. apply Hnotin. now right.
          + rewrite get_set_other; [exact Hm|].
            intros ->. apply Hnotin. now left. }
      apply G, get_set_same.
    + now apply IH.
Qed.

Lemma _flush_results w c1 m1 h1 c2 m2 h2 name paths :
  BundlesProcessor (heap w) (ResolvedFiles (this w)) (ScriptBundles (this w))
    (Scripts (joiner (this w))) = (inr (c1, m1), h1) ->
  BundlesProcessor h1 (ResolvedFiles (this w)) (StyleBundles (this w))
    (Styles (joiner (this w))) = (inr (c2, m2), h2) ->
  NoDup (JsMap.keys m2) ->
  JsMap.get m2 name = Some paths ->
  JsMap.get (ResultsMap (this (snd (_flush w)))) name = Some paths.
Proof.
  intros H1 H2 Hnd Hget. unfold _flush, try_catch.
  rewrite (_flush_try_run _ _ _ _ _ _ _ H1 H2). simpl.
  now apply recorded_last.
Qed.

End FlushFacts.

(** ** [_transform] *)

Section TransformFacts.

Context {host : Host}.

Implicit Types (w : World) (r : ref) (chunk : Chunk) (f : Vinyl).

Lemma get_path_snoc (l : list string) (s : string) :
  last (map Some (l ++ [s])%list) None = Some s.
Proof.
  induction l as [|x l IH]; simpl; [reflexivity|].
  rewrite IH. destruct (map Some (l ++ [s])%list) eqn:E; [|reflexivity].
  destruct l; discriminate.
Qed.

Lemma get_path_with_path f (p v : string) :
  get_path f = Some p -> v = p \/ v <> "" ->
  get_path (with_path v f) = Some v.
Proof.
  intros Hp Hv. unfold with_path. rewrite Hp. simpl.
  destruct (String.eqb_spec v "") as [E|E]; simpl.
  - destruct Hv as [->|Hv]; [exact Hp | contradiction].
  - destruct (String.eqb_spec v p) as [->|Hne]; simpl; [exact Hp|].
    unfold get_path. simpl. apply get_path_snoc.
Qed.

Lemma resolvePath_not_empty (p : string) : resolvePath p <> "".
Proof. unfold resolvePath, NodePath.resolve. simpl. discriminate. Qed.

Lemma ResolveVirtualPath_path_cases (transforms : list (string * string)) (p : string) :
  fst (ResolveVirtualPath transforms p) = p
  \/ fst (ResolveVirtualPath transforms p) <> "".
Proof.
  unfold ResolveVirtualPath. generalize 0.
  induction transforms as [|[o n] rest IH]; intros index; simpl.
  - now left.
  - destruct (JsString.startsWith p o); [|apply IH].
    right. apply resolvePath_not_empty.
Qed.

Lemma resolved_file_path transforms p f :
  get_path f = Some p ->
  get_path (resolved_file transforms p f) = Some (fst (ResolveVirtualPath transforms p)).
Proof.
  intros Hp. unfold resolved_file.
  change (get_path (set_Precedence ?x ?g)) with (get_path g).
  apply (get_path_with_path f p); [exact Hp | apply ResolveVirtualPath_path_cases].
Qed.

Lemma collect_run w r p :
  get_path (heap w r) = Some p ->
  collect r w =
    (inr tt,
     let h := store (heap w) r
                (resolved_file (PathTransforms (this w)) p (heap w r)) in
     with_ResolvedFiles (upsert h (ResolvedFiles (this w)) r) (with_heap h w)).
Proof.
  intros Hp. unfold collect, bind, load, self, lift, save. rewrite Hp.
  unfold ResolveVirtualPath_call, resolved_file.
  destruct (ResolveVirtualPath (PathTransforms (this w)) p) as [v prec].
  reflexivity.
Qed.

Lemma _transform_vinyl_run w r p :
  get_path (heap w r) = Some p ->
  _transform (CVinyl r) w =
    (inr tt,
     let h := store (heap w) r
                (resolved_file (PathTransforms (this w)) p (heap w r)) in
     mkWorld h
       (mkBundler (upsert h (ResolvedFiles (this w)) r) (PathTransforms (this w))
          (ScriptBundles (this w)) (StyleBundles (this w)) (joiner (this w))
          (ResultsMap (this w)))
       (readable w) (callbacks w ++ [None])%list).
Proof.
  intros Hp. unfold _transform, try_catch, _transform_try.
  rewrite (bind_ok _ _ _ _ _ (collect_run w r p Hp)). reflexivity.
Qed.

(** A Vinyl chunk without a path makes the [try] block throw before
    anything is changed. *)
Lemma _transform_try_pathless w r :
  get_path (heap w r) = None ->
  _transform_try (CVinyl r) w =
    (inl (match PathTransforms (this w) with
          | [] => JsError "path should be a string."
          | _ :: _ => TypeError "Cannot read properties of undefined (reading 'startsWith')"
          end), w).
Proof.
  intros Hp. unfold _transform_try, bind, collect, bind, load, self, lift.
  rewrite Hp. simpl. now destruct (PathTransforms (this w)).
Qed.

Lemma _transform_pathless_run w r :
  get_path (heap w r) = None ->
  _transform (CVinyl r) w
  = (inr tt,
     mkWorld (heap w) (this w) (readable w)
       (callbacks w
        ++ [Some (mkPluginError PluginName
                    (match PathTransforms (this w) with
                     | [] => JsError "path should be a string."
                     | _ :: _ =>
                         TypeError "Cannot read properties of undefined (reading 'startsWith')"
                     end))])%list).
Proof.
  intros Hp. unfold _transform, try_catch.
  rewrite (_transform_try_pathless w r Hp). apply report_message.
  now destruct (PathTransforms (this w)).
Qed.

(** C8: a chunk that is not a Vinyl object is pushed at once, unchanged;
    the table, the heap and the instance stay as they are and the
    callback reports no error.  A Vinyl chunk is never pushed by
    [_transform]; one that has a path is given its virtual path and
    precedence and offered to the table. *)
Theorem _transform_passes_other_chunks w :
  (forall chunk,
      isVinyl chunk = false ->
      _transform chunk w =
        (inr tt, mkWorld (heap w) (this w) (readable w ++ [chunk])%list
                   (callbacks w ++ [None])%list))
  /\ (forall r, readable (snd (_transform (CVinyl r) w)) = readable w)
  /\ (forall r p, get_path (heap w r) = Some p ->
        exists w',
          _transform (CVinyl r) w = (inr tt, w')
          /\ ResolvedFiles (this w') = upsert (heap w') (ResolvedFiles (this w)) r
          /\ get_path (heap w' r) =
               Some (fst (ResolveVirtualPath (PathTransforms (this w)) p))
          /\ Precedence (heap w' r) =
               Some (snd (ResolveVirtualPath (PathTransforms (this w)) p))
          /\ callbacks w' = (callbacks w ++ [None])%list).
Proof.
  split; [|split].
  - intros [r|payload] Hother; [discriminate | reflexivity].
  - intros r. destruct (get_path (heap w r)) as [p|] eqn:Hp.
    + now rewrite (_transform_vinyl_run w r p Hp).
    + now rewrite (_transform_pathless_run w r Hp).
  - intros r p Hp. eexists. split; [apply (_transform_vinyl_run w r p Hp)|].
    simpl. unfold store. rewrite Nat.eqb_refl.
    repeat split; try reflexivity.
    now apply resolved_file_path.
Qed.

(** Whatever the chunk, the paths of the table stay pairwise distinct. *)
Lemma _transform_keeps_paths_distinct w chunk :
  NoDup (JsMap.keys (ResolvedFiles (this w))) ->
  NoDup (JsMap.keys (ResolvedFiles (this (snd (_transform chunk w))))).
Proof.
  intros Hnd. destruct chunk as [r|payload]; [|exact Hnd].
  destruct (get_path (heap w r)) as [p|] eqn:Hp.
  - rewrite (_transform_vinyl_run w r p Hp). simpl. now apply upsert_keys_NoDup.
  - now rewrite (_transform_pathless_run w r Hp).
Qed.

End TransformFacts.

(** ** Collisions between two files *)

Section CollisionFacts.

Context {host : Host}.

Implicit Types (w : World) (r : ref).

(** The table after two Vinyl chunks, each with a path. *)
Lemma write_two w r1 r2 p1 p2 :
  r1 <> r2 ->
  get_path (heap w r1) = Some p1 -> get_path (heap w r2) = Some p2 ->
  ResolvedFiles (this (snd (write_all [CVinyl r1; CVinyl r2] w))) =
    let h1 := store (heap w) r1 (resolved_file (PathTransforms (this w)) p1 (heap w r1)) in
    let h2 := store h1 r2 (resolved_file (PathTransforms (this w)) p2 (heap w r2)) in
    upsert h2 (upsert h1 (ResolvedFiles (this w)) r1) r2.
Proof.
  intros Hne H1 H2. unfold write_all. simpl.
  rewrite (bind_ok _ _ _ _ _ (_transform_vinyl_run w r1 p1 H1)).
  set (h1 := store (heap w) r1 _).
  assert (H2' : get_path (h1 r2) = Some p2).
  { unfold h1, store. destruct (Nat.eqb_spec r2 r1); [congruence | exact H2]. }
  match goal with
  | |- context [bind (_transform (CVinyl r2)) _ ?w1] =>
      rewrite (bind_ok _ _ w1 _ _ (_transform_vinyl_run w1 r2 p2 H2'))
  end.
  simpl. unfold h1 at 2, store at 2.
  destruct (Nat.eqb_spec r2 r1); [congruence | reflexivity].
Qed.

(** Two files of one path whose precedences are equal once both are
    resolved: the one offered first holds the path. *)
Lemma upsert_tie (h1 h2 : Heap) (table : JsMap.t ref) r1 r2 (k : string) :
  get_path (h1 r1) = Some k -> get_path (h2 r2) = Some k ->
  JsMap.get table k = None ->
  Precedence (h2 r1) = Precedence (h2 r2) ->
  JsMap.get (upsert h2 (upsert h1 table r1) r2) k = Some r1.
Proof.
  intros H1 H2 Hfree Heq.
  rewrite (upsert_unfold h1 table r1 k H1), Hfree.
  rewrite (upsert_unfold h2 _ r2 k H2), get_set_same, Heq, lessThan_irrefl.
  apply get_set_same.
Qed.

(** Reading the heap at the reference just written, or beside it. *)
Ltac read_store :=
  unfold store; rewrite ?Nat.eqb_refl;
  repeat match goal with
         | |- context [Nat.eqb ?a ?b] =>
             destruct (Nat.eqb_spec a b); [congruence|]
         end.

(** C10: the transform at position 0 gives precedence 0, as no transform
    at all does.  So when a file that matches the transform at position
    0 and a file that matches none meet at one virtual path, the table
    keeps whichever was written first. *)
Theorem rule_0_ties_with_unmatched w ra rb pa pb o n :
  ra <> rb ->
  get_path (heap w ra) = Some pa -> get_path (heap w rb) = Some pb ->
  nth_error (PathTransforms (this w)) 0 = Some (o, n) ->
  JsString.startsWith pa o = true ->
  (forall o' n', In (o', n') (PathTransforms (this w)) ->
                 JsString.startsWith pb o' = false) ->
  fst (ResolveVirtualPath (PathTransforms (this w)) pa) = pb ->
  JsMap.get (ResolvedFiles (this w)) pb = None ->
  snd (ResolveVirtualPath (PathTransforms (this w)) pa) = 0
  /\ snd (ResolveVirtualPath (PathTransforms (this w)) pb) = 0
  /\ JsMap.get (ResolvedFiles (this (snd (write_all [CVinyl ra; CVinyl rb] w)))) pb
     = Some ra
  /\ JsMap.get (ResolvedFiles (this (snd (write_all [CVinyl rb; CVinyl ra] w)))) pb
     = Some rb.
Proof.
  intros Hne Ha Hb Hnth Hstart Hnone Hmeet Hfree.
  pose proof (proj1 (ResolveVirtualPath_precedence_0 _ pa) o n Hnth Hstart) as Pa.
  pose proof (proj2 (ResolveVirtualPath_precedence_0 _ pb) Hnone) as Pb.
  assert (Vb : fst (ResolveVirtualPath (PathTransforms (this w)) pb) = pb).
  { unfold ResolveVirtualPath.
    now rewrite (ResolveVirtualPath_from_no_match _ _ 0 Hnone). }
  assert (Fa : forall f, get_path f = Some pa ->
             get_path (resolved_file (PathTransforms (this w)) pa f) = Some pb).
  { intros f Hf. now rewrite (resolved_file_path _ _ _ Hf), Hmeet. }
  assert (Fb : forall f, get_path f = Some pb ->
             get_path (resolved_file (PathTransforms (this w)) pb f) = Some pb).
  { intros f Hf. now rewrite (resolved_file_path _ _ _ Hf), Vb. }
  split; [exact Pa|]. split; [exact Pb|]. split.
  - rewrite (write_two w ra rb pa pb Hne Ha Hb). cbv zeta.
    apply upsert_tie; try assumption; read_store.
    + now apply Fa.
    + now apply Fb.
    + unfold resolved_file. simpl. now rewrite Pa, Pb.
  - rewrite (write_two w rb ra pb pa (not_eq_sym Hne) Hb Ha). cbv zeta.
    apply upsert_tie; try assumption; read_store.
    + now apply Fb.
    + now apply Fa.
    + unfold resolved_file. simpl. now rewrite Pa, Pb.
Qed.

End CollisionFacts.

(** ** Faults *)

Section FaultFacts.

Context {host : Host}.

Implicit Types (w : World) (chunk : Chunk) (e : Thrown).

Lemma _transform_try_outcome w chunk :
  (exists w', _transform_try chunk w = (inr tt, w')
              /\ callbacks w' = (callbacks w ++ [None])%list)
  \/ (exists e, _transform_try chunk w = (inl e, w)
                /\ String.eqb (message_of e) "" = false).
Proof.
  destruct chunk as [r|payload].
  - destruct (get_path (heap w r)) as [p|] eqn:Hp.
    + left. eexists. split.
      * unfold _transform_try.
        rewrite (bind_ok _ _ _ _ _ (collect_run w r p Hp)). reflexivity.
      * reflexivity.
    + right. eexists. split; [apply (_transform_try_pathless w r Hp)|].
      now destruct (PathTransforms (this w)).
  - left. eexists. split; reflexivity.
Qed.

Lemma _flush_try_scripts_thrown w e h1 :
  BundlesProcessor (heap w) (ResolvedFiles (this w)) (ScriptBundles (this w))
    (Scripts (joiner (this w))) = (inl e, h1) ->
  _flush_try w = (inl e, with_heap h1 w).
Proof.
  intros H. unfold _flush_try, bind at 1, await_BundlesProcessor at 1.
  now rewrite H.
Qed.

Lemma _flush_try_styles_thrown w c1 m1 h1 e h2 :
  BundlesProcessor (heap w) (ResolvedFiles (this w)) (ScriptBundles (this w))
    (Scripts (joiner (this w))) = (inr (c1, m1), h1) ->
  BundlesProcessor h1 (ResolvedFiles (this w)) (StyleBundles (this w))
    (Styles (joiner (this w))) = (inl e, h2) ->
  _flush_try w =
    (inl e,
     mkWorld h2
       (mkBundler (ResolvedFiles (this w)) (PathTransforms (this w))
          (ScriptBundles (this w)) (StyleBundles (this w)) (joiner (this w))
          (recorded m1 (ResultsMap (this w))))
       (readable w ++ c1)%list (callbacks w)).
Proof.
  intros H1 H2. unfold _flush_try.
  unfold bind at 1. unfold await_BundlesProcessor at 1. rewrite H1.
  unfold bind at 1. rewrite for_each_push.
  unfold bind at 1. rewrite record_results_run.
  unfold bind at 1. unfold await_BundlesProcessor. simpl. now rewrite H2.
Qed.

Lemma _flush_try_outcome w :
  (exists w', _flush_try w = (inr tt, w')
              /\ callbacks w' = (callbacks w ++ [None])%list)
  \/ (exists e w1, _flush_try w = (inl e, w1) /\ callbacks w1 = callbacks w).
Proof.
  destruct (BundlesProcessor (heap w) (ResolvedFiles (this w)) (ScriptBundles (this w))
              (Scripts (joiner (this w)))) as [[e1|[c1 m1]] h1] eqn:E1.
  - right. exists e1, (with_heap h1 w).
    split; [now apply _flush_try_scripts_thrown | reflexivity].
  - destruct (BundlesProcessor h1 (ResolvedFiles (this w)) (StyleBundles (this w))
                (Styles (joiner (this w)))) as [[e2|[c2 m2]] h2] eqn:E2.
    + right. eexists _, _.
      split; [apply (_flush_try_styles_thrown _ _ _ _ _ _ E1 E2) | reflexivity].
    + left. eexists.
      split; [apply (_flush_try_run _ _ _ _ _ _ _ E1 E2) | reflexivity].
Qed.

(** A fault thrown in the [try] block of [_transform], and a fault with a
    message thrown in the [try] block of [_flush], is caught and handed to
    the callback once, wrapped in a [PluginError] that carries the
    plugin's name and the fault; no callback precedes it and the method
    returns normally.  The faults of [_transform] all carry a message, so
    [_transform] always returns normally after exactly one callback. *)
Theorem faults_with_message_reported_once w :
  (forall chunk e w1,
      _transform_try chunk w = (inl e, w1) ->
      _transform chunk w =
        (inr tt, mkWorld (heap w1) (this w1) (readable w1)
                   (callbacks w ++ [Some (mkPluginError PluginName e)])%list))
  /\ (forall e w1,
        _flush_try w = (inl e, w1) ->
        String.eqb (message_of e) "" = false ->
        _flush w =
          (inr tt, mkWorld (heap w1) (this w1) (readable w1)
                     (callbacks w ++ [Some (mkPluginError PluginName e)])%list))
  /\ (forall chunk, exists w' outcome,
        _transform chunk w = (inr tt, w')
        /\ callbacks w' = (callbacks w ++ [outcome])%list).
Proof.
  split; [|split].
  - intros chunk e w1 H. unfold _transform, try_catch. rewrite H.
    destruct (_transform_try_outcome w chunk) as [(w' & H' & _)|(e' & H' & Hmsg)];
      rewrite H' in H; [discriminate|].
    injection H as -> <-. now apply report_message.
  - intros e w1 H Hmsg. unfold _flush, try_catch. rewrite H.
    destruct (_flush_try_outcome w) as [(w' & H' & _)|(e' & w1' & H' & Hcb)];
      rewrite H' in H; [discriminate|].
    injection H as -> ->. rewrite (report_message _ _ Hmsg). now rewrite Hcb.
  - intros chunk. unfold _transform, try_catch.
    destruct (_transform_try_outcome w chunk) as [(w' & H' & Hcb)|(e' & H' & Hmsg)];
      rewrite H'.
    + now exists w', None.
    + rewrite (report_message _ _ Hmsg). eexists _, _. split; reflexivity.
Qed.

(** A fault without a message thrown in the [try] block of [_flush] is
    not reported: [new PluginError] throws in the [catch] block, so
    [_flush] itself throws and no callback is made. *)
Lemma _flush_silent_fault_escapes w (e : Thrown) (w1 : World) :
  _flush_try w = (inl e, w1) ->
  message_of e = "" ->
  _flush w = (inl (JsError "Missing error message"), w1)
  /\ callbacks w1 = callbacks w.
Proof.
  intros H Hmsg. unfold _flush, try_catch. rewrite H.
  split; [now apply report_silent|].
  destruct (_flush_try_outcome w) as [(w' & H' & _)|(e' & w1' & H' & Hcb)];
    rewrite H' in H; [discriminate|].
  now injection H as _ <-.
Qed.

End FaultFacts.

(** ** The configuration model *)

Section ConfigFacts.

Import ConfigModel.

Implicit Types (names : list string) (name : string) (v : Value).

Lemma first_seen_In names name : In name (first_seen names) <-> In name names.
Proof.
  induction names as [|a rest IH]; simpl; [tauto|].
  rewrite filter_In, IH. split.
  - intros [H|[H _]]; auto.
  - intros [H|H]; [now left|].
    destruct (String.eqb_spec name a) as [->|Hne]; [now left|].
    right. split; [exact H | reflexivity].
Qed.

Lemma first_seen_NoDup names : NoDup (first_seen names).
Proof.
  induction names as [|a rest IH]; simpl; constructor.
  - rewrite filter_In. intros [_ H]. now rewrite String.eqb_refl in H.
  - now apply NoDup_filter.
Qed.

Lemma position_filter (keep : string -> bool) names a b :
  keep a = true -> keep b = true ->
  (position a (filter keep names) < position b (filter keep names)
   <-> position a names < position b names).
Proof.
  intros Ka Kb. induction names as [|c rest IH]; simpl; [tauto|].
  destruct (keep c) eqn:Kc; simpl.
  - destruct (String.eqb c a), (String.eqb c b); try tauto; try lia.
  - destruct (String.eqb_spec c a) as [->|_]; [congruence|].
    destruct (String.eqb_spec c b) as [->|_]; [congruence|]. lia.
Qed.

(** The names keep the order of their first occurrences. *)
Lemma first_seen_order names a b :
  position a (first_seen names) < position b (first_seen names)
  <-> position a names < position b names.
Proof.
  induction names as [|c rest IH]; simpl; [tauto|].
  destruct (String.eqb_spec c a) as [Ea|Ha]; destruct (String.eqb_spec c b) as [Eb|Hb];
    try tauto; try lia.
  rewrite <- !Nat.succ_lt_mono, <- IH.
  apply position_filter; apply negb_true_iff, String.eqb_neq; congruence.
Qed.

Lemma environment_free_referenced : forall v,
  environment_free v = true -> referenced v = [].
Proof.
  fix IH 1. intros [b|s|items|fields]; simpl; try reflexivity.
  - induction items as [|x rest IHitems]; intros H; [reflexivity|].
    apply andb_true_iff in H as [Hx Hrest].
    now rewrite (IH x Hx), (IHitems Hrest).
  - induction fields as [|[key x] rest IHfields]; intros H; [reflexivity|].
    apply andb_true_iff in H as [Hx Hrest]. rewrite (IHfields Hrest).
    destruct (String.eqb key "options").
    + now destruct (options_environments x).
    + now rewrite (IH x Hx).
Qed.

(** C6, as the constructor decides it: a source that, once resolved, has
    neither a [bundle] key nor a [copy] key is refused with the shape
    error and its message. *)
Theorem construct_requires_bundle_or_copy (source : Source) (options : option Options) :
  has_key "bundle" source = false ->
  has_key "copy" source = false ->
  construct (Some source) options = inl (ShapeError shape_message).
Proof.
  unfold has_key, construct. intros Hb Hc.
  destruct (resolve_source source) as [b|s|items|fields]; try reflexivity.
  destruct (lookup "bundle" fields); [discriminate|].
  destruct (lookup "copy" fields); [discriminate|]. reflexivity.
Qed.

(** So is a missing source. *)
Lemma construct_without_source (options : option Options) :
  construct None options = inl (ShapeError shape_message).
Proof. reflexivity. Qed.

(** One of the two keys is enough for the constructor. *)
Lemma construct_accepts_one_key (source : Source) (options : option Options) :
  has_key "bundle" source = true \/ has_key "copy" source = true ->
  exists config, construct (Some source) options = inr config.
Proof.
  unfold has_key, construct. intros H.
  destruct (resolve_source source) as [b|s|items|fields];
    try (destruct H; discriminate).
  destruct (lookup "bundle" fields), (lookup "copy" fields);
    try (eexists; reflexivity).
  destruct H; discriminate.
Qed.

(** C7: [getAllEnvironments] lists the environment names referenced under
    [bundle], each once, in the order of their first occurrences in the
    depth-first traversal; on the configuration of the unit test it gives
    production, staging, sat, development; and it is empty when no
    [options] entry under [bundle] names an environment. *)
Theorem getAllEnvironments_first_seen :
  (forall config,
      NoDup (getAllEnvironments config)
      /\ (forall name, In name (getAllEnvironments config)
                       <-> In name (referenced_environments config))
      /\ (forall a b,
             position a (getAllEnvironments config)
             < position b (getAllEnvironments config)
             <-> position a (referenced_environments config)
                 < position b (referenced_environments config)))
  /\ (exists config,
        construct (Some (Plain Samples.complex_config)) None = inr config
        /\ getAllEnvironments config = ["production"; "staging"; "sat"; "development"])
  /\ (forall config b,
        bundle config = Some b -> environment_free b = true ->
        getAllEnvironments config = []).
Proof.
  split; [|split].
  - intros config. unfold getAllEnvironments. split; [apply first_seen_NoDup|].
    split; [intros name; apply first_seen_In | intros a b; apply first_seen_order].
  - eexists. split; reflexivity.
  - intros config b Hb Hfree. unfold getAllEnvironments, referenced_environments.
    now rewrite Hb, (environment_free_referenced b Hfree).
Qed.

End ConfigFacts.

(** ** Concrete runs *)

Section Runs.

Import Samples.

#[local] Existing Instance sample_host.

(** C3 fails as a statement about the text of the path: with the
    transform from [/src] to the root, [/src/x.js] resolves to [/x.js],
    while exchanging the prefix gives [//x.js]. *)
Lemma ResolveVirtualPath_normalises :
  PathTransforms (new_Bundler root_config sample_joiner) = [("/src", "/")]
  /\ JsString.startsWith "/src/x.js" "/src" = true
  /\ ResolveVirtualPath [("/src", "/")] "/src/x.js" = ("/x.js", 0)
  /\ "/" ++ JsString.drop (String.length "/src") "/src/x.js" = "//x.js"
  /\ ResolveVirtualPath [("/src", "/")] "/src/x.js"
     <> ("/" ++ JsString.drop (String.length "/src") "/src/x.js", 0).
Proof. repeat split; try reflexivity. discriminate. Qed.

(** A new path with a dollar pattern is expanded by [replace]. *)
Lemma ResolveVirtualPath_expands_dollar :
  ResolveVirtualPath [("/b", "/a$$")] "/b/f.js" = ("/a$/f.js", 0)
  /\ ResolveVirtualPath [("/b", "/x/$&")] "/b/f.js" = ("/x/b/f.js", 0).
Proof. split; reflexivity. Qed.

Lemma ResolveVirtualPath_first_match_witness :
  ResolveVirtualPath [("/b", "/a"); ("/c", "/a"); ("/c/d", "/e")] "/c/d/app.js"
  = ("/a/d/app.js", 1)
  /\ ResolveVirtualPath [("/b", "/a"); ("/c", "/a")] "/d/app.js" = ("/d/app.js", 0).
Proof.
  pose proof (ResolveVirtualPath_first_match
                [("/b", "/a"); ("/c", "/a"); ("/c/d", "/e")] "/c/d/app.js") as [H _].
  pose proof (ResolveVirtualPath_first_match
                [("/b", "/a"); ("/c", "/a")] "/d/app.js") as [_ H'].
  split.
  - destruct (H 1 "/c" "/a" eq_refl eq_refl) as [Hi Hp].
    + intros [|j] o n Hj Hn; [injection Hn as <- <-; reflexivity | lia].
    + specialize (Hp eq_refl).
      destruct (ResolveVirtualPath _ "/c/d/app.js"). simpl in *. now subst.
  - apply H'. intros o n [E|[E|[]]]; injection E as <- <-; reflexivity.
Defined.

Lemma upsert_by_precedence_witness :
  upsert resolved_heap [("/a/app.js", 0)] 1 = [("/a/app.js", 1)]
  /\ upsert resolved_heap [("/a/app.js", 1)] 0 = [("/a/app.js", 1)]
  /\ upsert resolved_heap [] 0 = [("/a/app.js", 0)].
Proof.
  destruct (upsert_by_precedence resolved_heap [("/a/app.js", 0)] 1 "/a/app.js" eq_refl)
    as (_ & Hhigher & _).
  destruct (upsert_by_precedence resolved_heap [("/a/app.js", 1)] 0 "/a/app.js" eq_refl)
    as (_ & Hlower & _).
  destruct (upsert_by_precedence resolved_heap [] 0 "/a/app.js" eq_refl)
    as (Hfree & _).
  split; [|split].
  - destruct (Hhigher 0 0 1 eq_refl eq_refl eq_refl) as [Hlt _].
    exact (proj1 (Hlt (Nat.lt_0_succ 0))).
  - destruct (Hlower 1 1 0 eq_refl eq_refl eq_refl) as [_ Hle].
    exact (Hle (Nat.le_0_l 1)).
  - exact (Hfree eq_refl).
Defined.

Lemma upsert_order_independent_witness :
  upsert resolved_heap (upsert resolved_heap [] 0) 1 = [("/a/app.js", 1)]
  /\ upsert resolved_heap (upsert resolved_heap [] 1) 0 = [("/a/app.js", 1)].
Proof.
  destruct (upsert_order_independent resolved_heap [] 0 1 "/a/app.js" 0 1
              eq_refl eq_refl eq_refl eq_refl (Nat.lt_0_succ 0)) as [Heq _].
  split; [exact (eq_trans Heq eq_refl) | reflexivity].
Defined.

Lemma _flush_emission_order_witness :
  readable (snd (_flush collected_world)) = [CVinyl 10; CVinyl 11; CVinyl 0; CVinyl 2]
  /\ ResolvedFiles (this (snd (_flush collected_world))) = [].
Proof.
  destruct (_flush_emission_order collected_world
              [CVinyl 10] [("main", ["main.js"])]
              (snd (BundlesProcessor (heap collected_world)
                      (ResolvedFiles (this collected_world))
                      (ScriptBundles (this collected_world))
                      (Scripts (joiner (this collected_world)))))
              [CVinyl 11] [("main", ["main.css"])]
              (snd (BundlesProcessor
                      (snd (BundlesProcessor (heap collected_world)
                              (ResolvedFiles (this collected_world))
                              (ScriptBundles (this collected_world))
                              (Scripts (joiner (this collected_world)))))
                      (ResolvedFiles (this collected_world))
                      (StyleBundles (this collected_world))
                      (Styles (joiner (this collected_world)))))
              eq_refl eq_refl)
    as (w' & Hrun & Hreadable & _ & Htable & _).
  rewrite Hrun. simpl. split; [exact Hreadable | exact Htable].
Defined.

(** C2 at a bundle with a script and a style: the scripts pass records
    [main.js] under [main], the styles pass records [main.css] under the
    same name, and [ResultsMap] ends with the styles paths alone. *)
Theorem ResultsMap_keeps_styles_only :
  fst (BundlesProcessor (heap collected_world) (ResolvedFiles (this collected_world))
         (ScriptBundles (this collected_world)) (Scripts (joiner (this collected_world))))
  = inr ([CVinyl 10], [("main", ["main.js"])])
  /\ fst (BundlesProcessor
            (snd (BundlesProcessor (heap collected_world)
                    (ResolvedFiles (this collected_world))
                    (ScriptBundles (this collected_world))
                    (Scripts (joiner (this collected_world)))))
            (ResolvedFiles (this collected_world))
            (StyleBundles (this collected_world)) (Styles (joiner (this collected_world))))
     = inr ([CVinyl 11], [("main", ["main.css"])])
  /\ ResultsMap (this (snd (_flush collected_world))) = [("main", ["main.css"])]
  /\ callbacks (snd (_flush collected_world)) = [None; None; None].
Proof. repeat split; reflexivity. Qed.

Lemma _transform_passes_other_chunks_witness :
  _transform (COther "x") sample_world
  = (inr tt, mkWorld sample_heap sample_bundler [COther "x"] [None])
  /\ ResolvedFiles (this (snd (_transform (CVinyl 1) sample_world))) = [("/a/app.js", 1)]
  /\ readable (snd (_transform (CVinyl 1) sample_world)) = [].
Proof.
  destruct (_transform_passes_other_chunks sample_world) as (Hother & Hquiet & Hfile).
  split; [exact (Hother (COther "x") eq_refl)|]. split; [|exact (Hquiet 1)].
  destruct (Hfile 1 "/b/app.js" eq_refl) as (w' & Hrun & Htable & _).
  rewrite Hrun. simpl. rewrite Htable.
  injection Hrun as <-. reflexivity.
Defined.

Lemma rule_0_ties_with_unmatched_witness :
  JsMap.get (ResolvedFiles (this (snd (write_all [CVinyl 1; CVinyl 0] sample_world))))
    "/a/app.js" = Some 1
  /\ JsMap.get (ResolvedFiles (this (snd (write_all [CVinyl 0; CVinyl 1] sample_world))))
       "/a/app.js" = Some 0.
Proof.
  destruct (rule_0_ties_with_unmatched sample_world 1 0 "/b/app.js" "/a/app.js" "/b" "/a")
    as (_ & _ & Hfirst & Hsecond); try reflexivity.
  - discriminate.
  - intros o n [E|[]]. injection E as <- <-. reflexivity.
  - split; assumption.
Defined.

(** The two files of the sample under a transform at position 1: the
    file from [/b] takes the virtual path [/a/app.js] in either order, and
    after the flush exactly that file has been pushed. *)
Lemma override_end_to_end :
  let b := mkBundler [] [("/x", "/y"); ("/b", "/a")] [] [] sample_joiner [] in
  ResolvedFiles (this (snd (write_all [CVinyl 0; CVinyl 1] (start sample_heap b))))
  = [("/a/app.js", 1)]
  /\ ResolvedFiles (this (snd (write_all [CVinyl 1; CVinyl 0] (start sample_heap b))))
     = [("/a/app.js", 1)]
  /\ readable (snd (run [CVinyl 0; CVinyl 1] (start sample_heap b))) = [CVinyl 1]
  /\ history (heap (snd (run [CVinyl 0; CVinyl 1] (start sample_heap b))) 1)
     = ["/b/app.js"; "/a/app.js"].
Proof. repeat split; reflexivity. Qed.

(** The same object written twice: the second [_transform] resolves the
    path the first one assigned and resets the precedence of the very
    object the table holds; the table keeps its one entry. *)
Lemma same_object_twice :
  ResolvedFiles (this (snd (write_all [CVinyl 1; CVinyl 1] sample_world)))
  = [("/a/app.js", 1)]
  /\ heap (snd (write_all [CVinyl 1; CVinyl 1] sample_world)) 1
     = mkVinyl ["/b/app.js"; "/a/app.js"] "B" (Some 0).
Proof. split; reflexivity. Qed.

(** C9 at a styles pass that rejects without a message: the [catch]
    block of [_flush] throws [Missing error message] from
    [new PluginError], so the flush ends with that exception and without
    any callback; with a message the same rejection is reported. *)
Theorem silent_rejection_escapes :
  fst (BundlesProcessor (heap silent_world) (ResolvedFiles (this silent_world))
         (StyleBundles (this silent_world)) (Styles (joiner (this silent_world))))
  = inl (Rejected "")
  /\ fst (_flush silent_world) = inl (JsError "Missing error message")
  /\ callbacks (snd (_flush silent_world)) = []
  /\ fst (_flush failing_world) = inr tt
  /\ callbacks (snd (_flush failing_world))
     = [Some (mkPluginError "gulp-bundle-assets" (Rejected "boom"))].
Proof. repeat split; reflexivity. Qed.

(** C6 fails for a source that lacks [copy] alone: the configuration of
    the unit test "when given config with no env" is accepted. *)
Lemma construct_accepts_missing_copy :
  ConfigModel.has_key "copy" (ConfigModel.Plain no_env_config) = false
  /\ ConfigModel.has_key "bundle" (ConfigModel.Plain no_env_config) = true
  /\ exists config,
       ConfigModel.construct (Some (ConfigModel.Plain no_env_config)) None = inr config
       /\ ConfigModel.getAllEnvironments config = [].
Proof. repeat split. eexists. split; reflexivity. Qed.

Lemma construct_requires_bundle_or_copy_witness :
  ConfigModel.construct
    (Some (ConfigModel.Plain (ConfigModel.VObject [("junk", ConfigModel.VObject [])])))
    None
  = inl (ConfigModel.ShapeError ConfigModel.shape_message).
Proof.
  apply construct_requires_bundle_or_copy; reflexivity.
Defined.

End Runs.

(** * Further properties of the bundler *)

(** ** Which transform decides *)

Section ResolveMore.

Context {host : Host}.

Implicit Types (transforms : list (string * string)) (path : string).

Lemma startsWith_trans (s p q : string) :
  JsString.startsWith s p = true -> JsString.startsWith p q = true ->
  JsString.startsWith s q = true.
Proof.
  revert s p. induction q as [|c q IH]; intros s p Hsp Hpq; [reflexivity|].
  destruct p as [|d p]; simpl in Hpq; [discriminate|].
  destruct (Ascii.eqb_spec c d) as [->|]; [|discriminate].
  destruct s as [|e s]; simpl in Hsp; [discriminate|].
  destruct (Ascii.eqb_spec d e) as [->|]; [|discriminate].
  simpl. rewrite Ascii.eqb_refl. exact (IH s p Hsp Hpq).
Qed.

Lemma ResolveVirtualPath_from_cases transforms path index :
  (ResolveVirtualPath_from index transforms path = (path, 0)
   /\ forall o n, In (o, n) transforms -> JsString.startsWith path o = false)
  \/ (exists i o n,
        nth_error transforms i = Some (o, n)
        /\ JsString.startsWith path o = true
        /\ (forall j o' n', j < i -> nth_error transforms j = Some (o', n') ->
                            JsString.startsWith path o' = false)
        /\ ResolveVirtualPath_from index transforms path =
             (resolvePath (JsString.replace path o n), index + i)).
Proof.
  revert index. induction transforms as [|[o n] rest IH]; intros index.
  - left. split; [reflexivity | intros ? ? []].
  - simpl. destruct (JsString.startsWith path o) eqn:Hstart.
    + right. exists 0, o, n. rewrite Nat.add_0_r.
      repeat split; try reflexivity; [exact Hstart | intros j ? ? Hj; lia].
    + destruct (IH (S index)) as [[Hres Hnone]|(i & o' & n' & Hnth & Hs & Hbefore & Hres)].
      * left. split; [exact Hres|].
        intros o' n' [E|Hin]; [injection E as <- <-; exact Hstart | eauto].
      * right. exists (S i), o', n'. repeat split; try assumption.
        -- intros [|j] o'' n'' Hj Hn; simpl in Hn.
           ++ injection Hn as <- <-. exact Hstart.
           ++ apply (Hbefore j o'' n''); [lia | exact Hn].
        -- rewrite Hres. f_equal. lia.
Qed.

(** Every call of [ResolveVirtualPath] is decided in one of two ways:
    no transform's old path starts the path, which then comes back
    unchanged with precedence 0; or the first transform whose old path
    starts the path rewrites it and gives its position as precedence.  The
    precedence therefore stays below the number of transforms (and is 0
    without any). *)
Theorem ResolveVirtualPath_decided transforms path :
  ((ResolveVirtualPath transforms path = (path, 0)
    /\ forall o n, In (o, n) transforms -> JsString.startsWith path o = false)
   \/ (exists i o n,
         nth_error transforms i = Some (o, n)
         /\ JsString.startsWith path o = true
         /\ (forall j o' n', j < i -> nth_error transforms j = Some (o', n') ->
                             JsString.startsWith path o' = false)
         /\ ResolveVirtualPath transforms path =
              (resolvePath (JsString.replace path o n), i)))
  /\ snd (ResolveVirtualPath transforms path) < Nat.max 1 (length transforms).
Proof.
  unfold ResolveVirtualPath.
  destruct (ResolveVirtualPath_from_cases transforms path 0)
    as [[Hres Hnone]|(i & o & n & Hnth & Hs & Hbefore & Hres)].
  - split; [left; now split|]. rewrite Hres. cbn [snd]. lia.
  - split; [right; exists i, o, n; now repeat split|].
    rewrite Hres. cbn [snd plus].
    assert (i < length transforms) by (apply nth_error_Some; congruence). lia.
Qed.

(** A transform whose old path begins with the old path of an earlier
    transform is never the one that decides: no path gets its position
    as precedence. *)
Theorem shadowed_transform_never_decides transforms path i j oi ni oj nj :
  i < j ->
  nth_error transforms i = Some (oi, ni) ->
  nth_error transforms j = Some (oj, nj) ->
  JsString.startsWith oj oi = true ->
  Nat.eqb (snd (ResolveVirtualPath transforms path)) j = false.
Proof.
  intros Hij Hi Hj Hshadow. apply Nat.eqb_neq. unfold ResolveVirtualPath.
  destruct (ResolveVirtualPath_from_cases transforms path 0)
    as [[Hres Hnone]|(k & o & n & Hnth & Hs & Hbefore & Hres)];
    rewrite Hres; simpl; [lia|].
  intros ->. rewrite Hj in Hnth. injection Hnth as <- <-.
  pose proof (startsWith_trans _ _ _ Hs Hshadow) as Hearlier.
  now rewrite (Hbefore i oi ni Hij Hi) in Hearlier.
Qed.

End ResolveMore.

(** ** Resolved paths are in normal form *)

Section NormalForm.

Lemma segments_not_nil (s : string) : NodePath.segments s <> [].
Proof.
  destruct s as [|c s]; simpl; [discriminate|].
  destruct (Ascii.eqb c "/"); [discriminate|].
  destruct (NodePath.segments s); discriminate.
Qed.

Lemma segments_no_slash (s seg : string) :
  In seg (NodePath.segments s) -> no_slash seg = true.
Proof.
  revert seg. induction s as [|c s IH]; simpl; intros seg Hin.
  - destruct Hin as [<-|[]]. reflexivity.
  - destruct (Ascii.eqb c "/") eqn:E.
    + destruct Hin as [<-|Hin]; [reflexivity | now apply IH].
    + destruct (NodePath.segments s) as [|seg0 rest] eqn:Es.
      * destruct Hin as [<-|[]]. simpl. now rewrite E.
      * destruct Hin as [<-|Hin].
        -- simpl. rewrite E. simpl. apply IH. now left.
        -- apply IH. now right.
Qed.

(** A text without separator is its own single segment. *)
Lemma segments_single (seg : string) :
  no_slash seg = true -> NodePath.segments seg = [seg].
Proof.
  induction seg as [|c seg IH]; simpl; intros H; [reflexivity|].
  apply andb_true_iff in H as [Hc Hseg]. apply negb_true_iff in Hc.
  now rewrite Hc, (IH Hseg).
Qed.

Lemma segments_cons (seg rest : string) :
  no_slash seg = true ->
  NodePath.segments (seg ++ String "/" rest) = seg :: NodePath.segments rest.
Proof.
  induction seg as [|c seg IH]; simpl; intros H; [reflexivity|].
  apply andb_true_iff in H as [Hc Hseg]. apply negb_true_iff in Hc.
  now rewrite Hc, (IH Hseg).
Qed.

Lemma segments_join (segs : list string) :
  segs <> [] -> (forall seg, In seg segs -> no_slash seg = true) ->
  NodePath.segments (NodePath.join segs) = segs.
Proof.
  induction segs as [|seg rest IH]; intros Hne Hall; [contradiction|].
  destruct rest as [|seg' rest].
  - simpl. apply segments_single, Hall. now left.
  - change (NodePath.join (seg :: seg' :: rest))
      with (seg ++ String "/" (NodePath.join (seg' :: rest))).
    rewrite segments_cons by (apply Hall; now left).
    rewrite IH; [reflexivity | discriminate | intros s Hs; apply Hall; now right].
Qed.

Lemma normalize_step_kept (stack : list string) (seg : string) :
  no_slash seg = true ->
  (forall s, In s stack -> kept_segment s = true) ->
  forall s, In s (NodePath.normalize_step stack seg) -> kept_segment s = true.
Proof.
  intros Hseg Hstack s. unfold NodePath.normalize_step.
  destruct (String.eqb seg "") eqn:E1; [apply Hstack|].
  destruct (String.eqb seg ".") eqn:E2; [apply Hstack|].
  destruct (String.eqb seg "..") eqn:E3.
  - destruct stack; simpl; [intros [] | intros H; apply Hstack; now right].
  - intros [<-|H]; [|now apply Hstack].
    unfold kept_segment. now rewrite E1, E2, E3, Hseg.
Qed.

Lemma normalize_kept (segs : list string) :
  (forall seg, In seg segs -> no_slash seg = true) ->
  forall s, In s (NodePath.normalize segs) -> kept_segment s = true.
Proof.
  intros Hall s Hin. unfold NodePath.normalize in Hin. apply in_rev in Hin.
  revert Hin. generalize (@nil string) (fun s (H : In s (@nil string)) => match H with end
                                        : kept_segment s = true).
  induction segs as [|seg rest IH]; intros stack Hstack; simpl.
  - apply Hstack.
  - apply IH.
    + intros x Hx. apply Hall. now right.
    + apply normalize_step_kept; [apply Hall; now left | exact Hstack].
Qed.

Lemma normalize_of_kept (segs : list string) :
  (forall seg, In seg segs -> kept_segment seg = true) ->
  NodePath.normalize segs = segs.
Proof.
  intros Hall. unfold NodePath.normalize.
  assert (G : forall stack, fold_left NodePath.normalize_step segs stack
                            = (rev segs ++ stack)%list).
  { induction segs as [|seg rest IH]; intros stack; simpl; [reflexivity|].
    assert (Hseg : kept_segment seg = true) by (apply Hall; now left).
    unfold kept_segment in Hseg.
    apply andb_true_iff in Hseg as [Hseg _].
    apply andb_true_iff in Hseg as [Hseg E3].
    apply andb_true_iff in Hseg as [E1 E2].
    apply negb_true_iff in E1, E2, E3.
    unfold NodePath.normalize_step at 2. rewrite E1, E2, E3.
    rewrite IH by (intros s Hs; apply Hall; now right).
    now rewrite <- app_assoc. }
  rewrite G, app_nil_r. apply rev_involutive.
Qed.

Lemma kept_no_slash (seg : string) : kept_segment seg = true -> no_slash seg = true.
Proof. unfold kept_segment. intros H. now apply andb_true_iff in H as [_ H]. Qed.

Lemma resolve_shape (cwd p : string) :
  exists segs,
    (forall s, In s segs -> kept_segment s = true)
    /\ NodePath.resolve cwd p = String "/" (NodePath.join segs).
Proof.
  eexists. split; [|reflexivity].
  apply normalize_kept. intros seg. apply segments_no_slash.
Qed.

Lemma resolve_of_normal (cwd : string) (segs : list string) :
  (forall s, In s segs -> kept_segment s = true) ->
  NodePath.resolve cwd (String "/" (NodePath.join segs))
  = String "/" (NodePath.join segs).
Proof.
  intros Hkept. unfold NodePath.resolve.
  change (JsString.startsWith (String "/" (NodePath.join segs)) "/") with true.
  cbv iota.
  change (NodePath.segments (String "/" (NodePath.join segs)))
    with ("" :: NodePath.segments (NodePath.join segs)).
  change (NodePath.normalize ("" :: NodePath.segments (NodePath.join segs)))
    with (NodePath.normalize (NodePath.segments (NodePath.join segs))).
  change ("/" ++ ?x) with (String "/" x). f_equal. f_equal.
  destruct segs as [|seg rest]; [reflexivity|].
  rewrite segments_join.
  - now apply normalize_of_kept.
  - discriminate.
  - intros s Hs. apply kept_no_slash, Hkept, Hs.
Qed.

(** [path.resolve] gives paths in normal form: resolving a resolved path
    again changes nothing, whatever the working directory. *)
Lemma resolve_normal (cwd cwd' p : string) :
  NodePath.resolve cwd' (NodePath.resolve cwd p) = NodePath.resolve cwd p.
Proof.
  destruct (resolve_shape cwd p) as (segs & Hkept & ->).
  now apply resolve_of_normal.
Qed.

End NormalForm.

(** ** The constructor *)

Section ConstructorFacts.

Context {host : Host}.

Lemma resolvePath_normal (p : string) : resolvePath (resolvePath p) = resolvePath p.
Proof. apply resolve_normal. Qed.

Lemma resolvePath_absolute (p : string) : JsString.startsWith (resolvePath p) "/" = true.
Proof. reflexivity. Qed.

Lemma in_set {V : Type} (m : JsMap.t V) (k k' : string) (v v' : V) :
  In (k', v') (JsMap.set m k v) -> (k', v') = (k, v) \/ In (k', v') m.
Proof.
  induction m as [|[k0 v0] m IH]; simpl.
  - intros [E|[]]. left. now symmetry.
  - destruct (String.eqb_spec k0 k) as [->|Hne]; simpl.
    + intros [E|H]; [left; now symmetry | right; now right].
    + intros [E|H]; [right; now left|].
      destruct (IH H) as [E|H']; [now left | right; now right].
Qed.

Lemma get_in {V : Type} (m : JsMap.t V) (k : string) (v : V) :
  JsMap.get m k = Some v -> In (k, v) m.
Proof.
  induction m as [|[k0 v0] m IH]; simpl; [discriminate|].
  destruct (String.eqb_spec k0 k) as [->|Hne].
  - intros E. injection E as ->. now left.
  - intros H. right. now apply IH.
Qed.

Lemma absolute_paths_normal (base : string) (paths : list string) (p : string) :
  In p (absolute_paths base paths) ->
  resolvePath p = p /\ JsString.startsWith p "/" = true.
Proof.
  unfold absolute_paths. intros H. apply in_map_iff in H as (x & <- & _).
  split; [apply resolvePath_normal | apply resolvePath_absolute].
Qed.

Lemma fold_add_bundle_entries (base : string) (bundles : list (string * RawConfig.Bundle))
    (acc : JsMap.t (list string) * JsMap.t (list string)) (name : string)
    (paths : list string) :
  In (name, paths) (fst (fold_left (add_bundle base) bundles acc))
  \/ In (name, paths) (snd (fold_left (add_bundle base) bundles acc)) ->
  In (name, paths) (fst acc) \/ In (name, paths) (snd acc)
  \/ exists declared_paths, paths = absolute_paths base declared_paths.
Proof.
  revert acc. induction bundles as [|[n b] rest IH]; intros acc H; simpl in H.
  - tauto.
  - destruct (IH _ H) as [H1|[H2|H3]]; [| |now right; right].
    + simpl in H1. destruct (RawConfig.scripts b) as [ps|]; [|now left].
      destruct (in_set _ _ _ _ _ H1) as [E|H']; [|now left].
      injection E as -> ->. right. right. now exists ps.
    + simpl in H2. destruct (RawConfig.styles b) as [ps|]; [|now right; left].
      destruct (in_set _ _ _ _ _ H2) as [E|H']; [|now right; left].
      injection E as -> ->. right. right. now exists ps.
Qed.

(** A new bundler starts with an empty table and an empty results map,
    and every path it stores (both sides of every transform, every script
    and style path of every bundle) is absolute and in the normal form of
    [path.resolve]: resolving it again gives the same text. *)
Theorem new_Bundler_stores_normal_paths (config : RawConfig.t) (joiner : Bundlers) :
  ResolvedFiles (new_Bundler config joiner) = JsMap.empty
  /\ ResultsMap (new_Bundler config joiner) = JsMap.empty
  /\ (forall o n, In (o, n) (PathTransforms (new_Bundler config joiner)) ->
        (resolvePath o = o /\ JsString.startsWith o "/" = true)
        /\ (resolvePath n = n /\ JsString.startsWith n "/" = true))
  /\ (forall name paths p,
        JsMap.get (ScriptBundles (new_Bundler config joiner)) name = Some paths
        \/ JsMap.get (StyleBundles (new_Bundler config joiner)) name = Some paths ->
        In p paths ->
        resolvePath p = p /\ JsString.startsWith p "/" = true).
Proof.
  split; [reflexivity|]. split; [reflexivity|]. split.
  - intros o n. unfold new_Bundler. simpl.
    destruct (RawConfig.PathTransforms config) as [ts|]; [|intros []].
    unfold absolute_transforms. intros H.
    apply in_map_iff in H as ([o0 n0] & E & _). injection E as <- <-.
    repeat split; try apply resolvePath_normal.
  - intros name paths p Hget Hp. unfold new_Bundler in Hget. simpl in Hget.
    destruct (RawConfig.bundle config) as [bs|].
    + assert (Hin : In (name, paths)
                       (fst (fold_left (add_bundle (or_cwd (RawConfig.BundlesBasePath config)))
                               (JsObject.for_in_order bs) (JsMap.empty, JsMap.empty)))
                    \/ In (name, paths)
                         (snd (fold_left (add_bundle (or_cwd (RawConfig.BundlesBasePath config)))
                                 (JsObject.for_in_order bs) (JsMap.empty, JsMap.empty)))).
      { destruct Hget as [H|H]; [left | right]; now apply get_in. }
      destruct (fold_add_bundle_entries _ _ _ _ _ Hin) as [[]|[[]|(ps & ->)]].
      exact (absolute_paths_normal _ ps p Hp).
    + destruct Hget; discriminate.
Qed.

Lemma declared_cons (kind : RawConfig.Bundle -> option (list string)) (base : string)
    (entry : string * RawConfig.Bundle) (rest : list (string * RawConfig.Bundle)) :
  declared kind base (entry :: rest)
  = ((match kind (snd entry) with
      | Some paths => [(fst entry, absolute_paths base paths)]
      | None => []
      end) ++ declared kind base rest)%list.
Proof. reflexivity. Qed.

Lemma fold_add_bundle (base : string) (bundles : list (string * RawConfig.Bundle))
    (acc : JsMap.t (list string) * JsMap.t (list string)) :
  NoDup (map fst bundles) ->
  (forall name, In name (map fst bundles) ->
                JsMap.get (fst acc) name = None /\ JsMap.get (snd acc) name = None) ->
  fold_left (add_bundle base) bundles acc
  = ((fst acc ++ declared RawConfig.scripts base bundles)%list,
     (snd acc ++ declared RawConfig.styles base bundles)%list).
Proof.
  revert acc. induction bundles as [|[name b] rest IH]; intros [s t] Hnd Hfree.
  - simpl. now rewrite !app_nil_r.
  - inversion Hnd as [|? ? Hnotin Hnd']; subst.
    destruct (Hfree name (or_introl eq_refl)) as [Hs Ht]. simpl in Hs, Ht.
    cbn [fold_left]. rewrite IH; [|exact Hnd'|].
    + rewrite !declared_cons. unfold add_bundle. cbn [fst snd].
      destruct (RawConfig.scripts b) as [ps|], (RawConfig.styles b) as [qs|];
        rewrite ?(set_absent _ _ _ Hs), ?(set_absent _ _ _ Ht), <- ?app_assoc;
        reflexivity.
    + intros name' Hin.
      assert (Hne : name <> name') by (intros ->; contradiction).
      destruct (Hfree name' (or_intror Hin)) as [Hs' Ht']. simpl in Hs', Ht'.
      unfold add_bundle. cbn [fst snd].
      destruct (RawConfig.scripts b), (RawConfig.styles b); cbn [fst snd];
        rewrite ?get_set_other by exact Hne; now split.
Qed.

Lemma insert_by_index_perm {V : Type} (e : N * V) (l : list (N * V)) :
  Permutation (JsObject.insert_by_index e l) (e :: l).
Proof.
  induction l as [|x l IH]; simpl; [reflexivity|].
  destruct (N.leb (fst e) (fst x)); [reflexivity|].
  rewrite IH. apply perm_swap.
Qed.

Lemma sort_by_index_perm {V : Type} (l : list (N * V)) :
  Permutation (JsObject.sort_by_index l) l.
Proof.
  induction l as [|x l IH]; simpl; [reflexivity|].
  rewrite insert_by_index_perm. now constructor.
Qed.

Lemma indexed_named_perm {V : Type} (entries : list (string * V)) :
  Permutation (map snd (JsObject.indexed entries) ++ JsObject.named entries)%list
    entries.
Proof.
  induction entries as [|e rest IH]; [reflexivity|].
  unfold JsObject.indexed, JsObject.named in *. cbn [flat_map filter].
  destruct (JsObject.array_index (fst e)); cbn [app map snd].
  - now apply perm_skip.
  - apply Permutation_sym, Permutation_cons_app, Permutation_sym, IH.
Qed.

Lemma for_in_order_perm {V : Type} (entries : list (string * V)) :
  Permutation (JsObject.for_in_order entries) entries.
Proof.
  unfold JsObject.for_in_order.
  apply (perm_trans (l' := (map snd (JsObject.indexed entries)
                            ++ JsObject.named entries)%list));
    [|apply indexed_named_perm].
  apply Permutation_app_tail, Permutation_map, sort_by_index_perm.
Qed.

(** Without an array index among the keys, [for]-[in] follows the order
    in which the keys were written. *)
Lemma for_in_order_named {V : Type} (entries : list (string * V)) :
  (forall e, In e entries -> JsObject.array_index (fst e) = None) ->
  JsObject.for_in_order entries = entries.
Proof.
  intros Hall. unfold JsObject.for_in_order.
  assert (Hi : JsObject.indexed entries = []).
  { unfold JsObject.indexed. induction entries as [|e rest IH]; simpl; [reflexivity|].
    rewrite (Hall e (or_introl eq_refl)). simpl.
    apply IH. intros x Hx. apply Hall. now right. }
  assert (Hn : JsObject.named entries = entries).
  { unfold JsObject.named. induction entries as [|e rest IH]; simpl; [reflexivity|].
    rewrite (Hall e (or_introl eq_refl)). f_equal.
    apply IH; [intros x Hx; apply Hall; now right|].
    unfold JsObject.indexed in Hi. simpl in Hi.
    rewrite (Hall e (or_introl eq_refl)) in Hi. exact Hi. }
  now rewrite Hi, Hn.
Qed.

(** The constructor registers the bundles in the order in which
    [for]-[in] visits [config.bundle]: the bundles whose name is an array
    index first, by ascending index, then the others in the order the
    configuration declares them (so in declaration order when no name is
    an array index).  [ScriptBundles] holds exactly the bundles that
    declare scripts and [StyleBundles] exactly those that declare styles,
    each with its paths in order, resolved against the bundles base path
    (the working directory when that is unset or empty). *)
Theorem new_Bundler_registers_in_order (config : RawConfig.t) (joiner : Bundlers)
    (bundles : list (string * RawConfig.Bundle)) :
  RawConfig.bundle config = Some bundles ->
  NoDup (map fst bundles) ->
  (ScriptBundles (new_Bundler config joiner)
   = declared RawConfig.scripts (or_cwd (RawConfig.BundlesBasePath config))
       (JsObject.for_in_order bundles)
   /\ StyleBundles (new_Bundler config joiner)
      = declared RawConfig.styles (or_cwd (RawConfig.BundlesBasePath config))
          (JsObject.for_in_order bundles))
  /\ ((forall name, In name (map fst bundles) -> JsObject.array_index name = None) ->
      ScriptBundles (new_Bundler config joiner)
      = declared RawConfig.scripts (or_cwd (RawConfig.BundlesBasePath config)) bundles
      /\ StyleBundles (new_Bundler config joiner)
         = declared RawConfig.styles (or_cwd (RawConfig.BundlesBasePath config)) bundles).
Proof.
  intros Hb Hnd.
  assert (Hnd' : NoDup (map fst (JsObject.for_in_order bundles))).
  { apply (Permutation_NoDup (l := map fst bundles)); [|exact Hnd].
    apply Permutation_map. symmetry. apply for_in_order_perm. }
  assert (G : ScriptBundles (new_Bundler config joiner)
              = declared RawConfig.scripts (or_cwd (RawConfig.BundlesBasePath config))
                  (JsObject.for_in_order bundles)
              /\ StyleBundles (new_Bundler config joiner)
                 = declared RawConfig.styles (or_cwd (RawConfig.BundlesBasePath config))
                     (JsObject.for_in_order bundles)).
  { unfold new_Bundler. rewrite Hb. simpl.
    rewrite (fold_add_bundle _ _ _ Hnd'); [now split|].
    intros name _. now split. }
  split; [exact G|]. intros Hnamed.
  rewrite for_in_order_named in G; [exact G|].
  intros e He. apply Hnamed. now apply in_map.
Qed.

(** The constructor throws exactly when a bundle is named
    [hasOwnProperty]; otherwise it returns the instance. *)
Lemma Bundler_constructor_outcome (config : RawConfig.t) (joiner : Bundlers) :
  Bundler_constructor config joiner
  = match RawConfig.bundle config with
    | Some bs =>
        if existsb (fun e => String.eqb (fst e) "hasOwnProperty") bs
        then inl (TypeError "config.bundle.hasOwnProperty is not a function")
        else inr (new_Bundler config joiner)
    | None => inr (new_Bundler config joiner)
    end.
Proof.
  unfold Bundler_constructor. destruct (RawConfig.bundle config) as [bs|]; [|reflexivity].
  assert (E : JsObject.has_own bs "hasOwnProperty"
              = existsb (fun e => String.eqb (fst e) "hasOwnProperty") bs).
  { induction bs as [|[k v] rest IH]; simpl; [reflexivity | now rewrite IH]. }
  now rewrite E.
Qed.

End ConstructorFacts.

(** ** The table under [upsert] *)

Section TableMore.

Implicit Types (h : Heap) (table : JsMap.t ref) (r : ref) (path : string).

Lemma keys_append {V : Type} (m : JsMap.t V) (k : string) (v : V) :
  JsMap.keys (m ++ [(k, v)])%list = (JsMap.keys m ++ [k])%list.
Proof. unfold JsMap.keys. now rewrite map_app. Qed.

Lemma upsert_order h table r path :
  get_path (h r) = Some path ->
  JsMap.keys (upsert h table r)
  = (if JsMap.has table path then JsMap.keys table
     else (JsMap.keys table ++ [path])%list)
  /\ (forall other, other <> path ->
        JsMap.get (upsert h table r) other = JsMap.get table other).
Proof.
  intros Hp. rewrite (upsert_unfold _ _ _ _ Hp), has_get.
  destruct (JsMap.get table path) as [r0|] eqn:E.
  - destruct (lessThan (Precedence (h r0)) (Precedence (h r))).
    + split; [now apply (keys_set_present _ _ _ r0)|].
      intros other Hne. apply get_set_other. congruence.
    + now split.
  - split.
    + now rewrite (set_absent _ _ _ E), keys_append.
    + intros other Hne. apply get_set_other. congruence.
Qed.

(** An upsert never reorders the table: a path that is already there
    keeps its place whether or not its file is replaced, a new path goes
    to the end, and no other path changes its file. *)
Theorem upsert_keeps_order h table r path :
  get_path (h r) = Some path ->
  JsMap.keys (upsert h table r)
  = (if JsMap.has table path then JsMap.keys table
     else (JsMap.keys table ++ [path])%list)
  /\ (forall other, other <> path ->
        JsMap.get (upsert h table r) other = JsMap.get table other).
Proof. apply upsert_order. Qed.

Lemma in_upsert h table r (k : string) (r' : ref) :
  In (k, r') (upsert h table r) ->
  In (k, r') table \/ (r' = r /\ get_path (h r) = Some k).
Proof.
  unfold upsert. destruct (get_path (h r)) as [path|]; [|now left].
  assert (G : In (k, r') (JsMap.set table path r) ->
              In (k, r') table \/ r' = r /\ Some path = Some k).
  { intros H. destruct (in_set _ _ _ _ _ H) as [E|H']; [|now left].
    injection E as -> ->. now right. }
  destruct (JsMap.has table path); [|exact G].
  match goal with |- context [if ?b then _ else _] => destruct b end;
    [exact G | now left].
Qed.

End TableMore.

(** ** [_transform] and whole streams *)

Section StreamFacts.

Context {host : Host}.

Implicit Types (w : World) (r : ref) (chunk : Chunk) (chunks : list Chunk).

Lemma with_path_history (v : string) (f : Vinyl) :
  contents (with_path v f) = contents f
  /\ Precedence (with_path v f) = Precedence f
  /\ exists added, history (with_path v f) = (history f ++ added)%list.
Proof.
  unfold with_path.
  destruct (negb (String.eqb v "") && negb (option_string_eqb (Some v) (get_path f))).
  - repeat split. now exists [v].
  - repeat split. exists []. now rewrite app_nil_r.
Qed.

(** A Vinyl chunk without a path leaves everything as it was, except
    for the one callback, which carries the fault: the [TypeError] of
    [path.startsWith] when there is a transform to try, and otherwise the
    error of the path setter. *)
Theorem _transform_pathless w r :
  get_path (heap w r) = None ->
  _transform (CVinyl r) w
  = (inr tt,
     mkWorld (heap w) (this w) (readable w)
       (callbacks w
        ++ [Some (mkPluginError PluginName
                    (match PathTransforms (this w) with
                     | [] => JsError "path should be a string."
                     | _ :: _ =>
                         TypeError "Cannot read properties of undefined (reading 'startsWith')"
                     end))])%list).
Proof. apply _transform_pathless_run. Qed.

(** What [_transform] never touches: the transforms, the bundle maps,
    the factories and the results map; every object other than the chunk
    itself; the contents of the chunk and the paths it had before (its
    history only grows, so the path it was created with stays its first);
    and the entries of the table, except that the chunk may be entered. *)
Theorem _transform_frame w chunk :
  PathTransforms (this (snd (_transform chunk w))) = PathTransforms (this w)
  /\ ScriptBundles (this (snd (_transform chunk w))) = ScriptBundles (this w)
  /\ StyleBundles (this (snd (_transform chunk w))) = StyleBundles (this w)
  /\ joiner (this (snd (_transform chunk w))) = joiner (this w)
  /\ ResultsMap (this (snd (_transform chunk w))) = ResultsMap (this w)
  /\ (forall r, chunk <> CVinyl r -> heap (snd (_transform chunk w)) r = heap w r)
  /\ (forall r, contents (heap (snd (_transform chunk w)) r) = contents (heap w r)
                /\ exists added,
                     history (heap (snd (_transform chunk w)) r)
                     = (history (heap w r) ++ added)%list)
  /\ (forall k r, In (k, r) (ResolvedFiles (this (snd (_transform chunk w)))) ->
                  In (k, r) (ResolvedFiles (this w)) \/ chunk = CVinyl r).
Proof.
  assert (Same : forall r, contents (heap w r) = contents (heap w r)
                           /\ exists added, history (heap w r)
                                            = (history (heap w r) ++ added)%list).
  { intros r. split; [reflexivity|]. exists []. now rewrite app_nil_r. }
  destruct chunk as [r0|payload].
  - destruct (get_path (heap w r0)) as [p|] eqn:Hp.
    + rewrite (_transform_vinyl_run w r0 p Hp). cbn [snd].
      cbv zeta. cbn [heap this PathTransforms ScriptBundles StyleBundles joiner
                     ResultsMap ResolvedFiles].
      repeat split; try reflexivity.
      * intros r Hne. unfold store.
        destruct (Nat.eqb_spec r r0) as [->|]; [congruence | reflexivity].
      * unfold store. destruct (Nat.eqb_spec r r0) as [->|]; [|reflexivity].
        unfold resolved_file. cbn [contents set_Precedence].
        apply with_path_history.
      * unfold store. destruct (Nat.eqb_spec r r0) as [->|]; [|apply Same].
        unfold resolved_file. cbn [history set_Precedence].
        apply with_path_history.
      * intros k r H. destruct (in_upsert _ _ _ _ _ H) as [H'|[-> _]];
          [now left | now right].
    + rewrite (_transform_pathless_run w r0 Hp). cbn [snd heap this].
      repeat split; try reflexivity; try apply Same. intros; now left.
  - cbn. repeat split; try reflexivity; try apply Same. intros; now left.
Qed.

(** One chunk: [_transform] returns normally after exactly one callback,
    and pushes the chunk if and only if it is not a Vinyl object. *)
Lemma _transform_step w chunk :
  exists w',
    _transform chunk w = (inr tt, w')
    /\ readable w' = (readable w ++ other_chunks [chunk])%list
    /\ length (callbacks w') = S (length (callbacks w)).
Proof.
  destruct chunk as [r|payload].
  - destruct (get_path (heap w r)) as [p|] eqn:Hp.
    + eexists. split; [apply (_transform_vinyl_run w r p Hp)|].
      cbn. rewrite app_nil_r, length_app. simpl. split; [reflexivity | lia].
    + eexists. split; [apply (_transform_pathless_run w r Hp)|].
      cbn. rewrite app_nil_r, length_app. simpl. split; [reflexivity | lia].
  - eexists. split; [reflexivity|]. cbn. rewrite length_app. simpl.
    split; [reflexivity | lia].
Qed.

Lemma write_all_cons chunk chunks w w1 :
  _transform chunk w = (inr tt, w1) ->
  write_all (chunk :: chunks) w = write_all chunks w1.
Proof.
  intros H. unfold write_all. cbn [for_each]. now rewrite (bind_ok _ _ _ _ _ H).
Qed.

Lemma other_chunks_cons chunk chunks :
  other_chunks (chunk :: chunks) = (other_chunks [chunk] ++ other_chunks chunks)%list.
Proof. unfold other_chunks. simpl. now destruct (negb (isVinyl chunk)). Qed.

Lemma write_all_summary chunks w :
  exists w',
    write_all chunks w = (inr tt, w')
    /\ readable w' = (readable w ++ other_chunks chunks)%list
    /\ length (callbacks w') = length (callbacks w) + length chunks.
Proof.
  revert w. induction chunks as [|chunk chunks IH]; intros w.
  - exists w. cbn. rewrite app_nil_r. repeat split. lia.
  - destruct (_transform_step w chunk) as (w1 & Hrun & Hread & Hcb).
    destruct (IH w1) as (w' & Hrest & Hread' & Hcb').
    exists w'. rewrite (write_all_cons _ _ _ _ Hrun). split; [exact Hrest|].
    rewrite Hread', Hread, (other_chunks_cons chunk chunks), <- app_assoc.
    split; [reflexivity|].
    rewrite Hcb', Hcb. simpl. lia.
Qed.

(** While a stream is written, exactly the chunks that are not Vinyl
    objects reach the readable side, in the order they arrived; no file
    is pushed before the flush.  Every chunk is answered by one
    callback and writing never throws. *)
Theorem write_all_passes_others_in_order chunks w :
  exists w',
    write_all chunks w = (inr tt, w')
    /\ readable w' = (readable w ++ other_chunks chunks)%list
    /\ length (callbacks w') = length (callbacks w) + length chunks.
Proof. apply write_all_summary. Qed.

(** A whole run, writes and flush, calls back once for every chunk and
    once for the flush and returns normally, whatever the chunks, unless
    the [try] block of the flush throws a fault without a message: then
    the run ends with the [Missing error message] exception of
    [new PluginError] and the flush has made no callback. *)
Theorem run_calls_back chunks w :
  ((forall e, fst (_flush_try (snd (write_all chunks w))) = inl e ->
              String.eqb (message_of e) "" = false) ->
   fst (run chunks w) = inr tt
   /\ length (callbacks (snd (run chunks w)))
      = length (callbacks w) + length chunks + 1)
  /\ (forall e, fst (_flush_try (snd (write_all chunks w))) = inl e ->
                message_of e = "" ->
                fst (run chunks w) = inl (JsError "Missing error message")
                /\ length (callbacks (snd (run chunks w)))
                   = length (callbacks w) + length chunks).
Proof.
  destruct (write_all_summary chunks w) as (w1 & Hwrite & _ & Hcb).
  unfold run. rewrite (bind_ok _ _ _ _ _ Hwrite), Hwrite. cbn [snd].
  unfold _flush, try_catch.
  destruct (_flush_try_outcome w1) as [(w' & H' & Hcb')|(e & w2 & H' & Hcb')];
    rewrite H'; cbn [fst snd].
  - split; [|intros e He; discriminate].
    intros _. split; [reflexivity|]. rewrite Hcb', length_app, Hcb. simpl. lia.
  - split.
    + intros Hmsg. rewrite (report_message _ _ (Hmsg e eq_refl)). cbn [fst snd callbacks].
      split; [reflexivity|]. rewrite Hcb', length_app, Hcb. simpl. lia.
    + intros e' He Hmsg. injection He as <-.
      rewrite (report_silent _ _ Hmsg). cbn [fst snd].
      split; [reflexivity|]. now rewrite Hcb', Hcb.
Qed.

End StreamFacts.

(** ** Streams of distinct files *)

Section DistinctFiles.

Context {host : Host}.

Implicit Types (w : World) (r : ref) (chunk : Chunk) (chunks : list Chunk).

Lemma settled_other transforms h0 (written : ref -> Prop) w payload :
  settled transforms h0 written w ->
  settled transforms h0 written (snd (_transform (COther payload) w)).
Proof. intros H. exact H. Qed.

Lemma settled_pathless transforms h0 (written : ref -> Prop) w r :
  settled transforms h0 written w -> ~ written r ->
  get_path (heap w r) = None ->
  settled transforms h0 (fun r' => r' = r \/ written r')
    (snd (_transform (CVinyl r) w)).
Proof.
  intros (I1 & I2 & I3 & I4 & I5) Hfresh Hp.
  rewrite (_transform_pathless_run w r Hp). cbn [snd].
  unfold settled. cbn [this heap].
  split; [exact I1|]. split; [exact I2|]. split; [|split].
  - intros r' Hr'. apply I3. tauto.
  - intros k r' Hin. destruct (I4 k r' Hin) as [Hw Hrest]. split; [now right | exact Hrest].
  - intros r' p0 [->|Hw] Hp0.
    + rewrite <- (I3 r Hfresh) in Hp0. congruence.
    + exact (I5 r' p0 Hw Hp0).
Qed.

Lemma settled_file transforms h0 (written : ref -> Prop) w r p :
  settled transforms h0 written w -> ~ written r ->
  get_path (heap w r) = Some p ->
  settled transforms h0 (fun r' => r' = r \/ written r')
    (snd (_transform (CVinyl r) w)).
Proof.
  intros (I1 & I2 & I3 & I4 & I5) Hfresh Hp.
  rewrite (_transform_vinyl_run w r p Hp). cbn [snd]. cbv zeta.
  rewrite I1.
  set (h' := store (heap w) r (resolved_file transforms p (heap w r))).
  set (table := ResolvedFiles (this w)) in *.
  set (v := fst (ResolveVirtualPath transforms p)).
  set (q := snd (ResolveVirtualPath transforms p)).
  assert (Hp0 : get_path (h0 r) = Some p) by (rewrite <- (I3 r Hfresh); exact Hp).
  assert (Hr_path : get_path (h' r) = Some v).
  { unfold h', store. rewrite Nat.eqb_refl. now apply resolved_file_path. }
  assert (Hr_prec : Precedence (h' r) = Some q).
  { unfold h', store. now rewrite Nat.eqb_refl. }
  assert (Hold : forall r', written r' -> h' r' = heap w r').
  { intros r' Hw. unfold h', store.
    destruct (Nat.eqb_spec r' r) as [->|]; [contradiction | reflexivity]. }
  assert (J4 : forall k r', In (k, r') (upsert h' table r) ->
      (r' = r \/ written r')
      /\ exists p0, get_path (h0 r') = Some p0
                    /\ k = fst (ResolveVirtualPath transforms p0)
                    /\ get_path (h' r') = Some k
                    /\ Precedence (h' r')
                       = Some (snd (ResolveVirtualPath transforms p0))).
  { intros k r' Hin. destruct (in_upsert _ _ _ _ _ Hin) as [Hin'|[-> Hk]].
    - destruct (I4 k r' Hin') as (Hw & p0 & A & B & C & D).
      split; [now right|]. exists p0. rewrite (Hold r' Hw). now repeat split.
    - split; [now left|]. exists p. rewrite Hr_path in Hk. injection Hk as <-.
      now repeat split. }
  unfold settled. cbn [this heap PathTransforms ResolvedFiles].
  split; [reflexivity|]. split; [now apply upsert_keys_NoDup|].
  split; [|split; [exact J4|]].
  - intros r' Hr'. unfold h', store.
    destruct (Nat.eqb_spec r' r) as [->|]; [tauto|]. apply I3. tauto.
  - intros r1 p1 Hw1 Hp1.
    destruct Hw1 as [->|Hw1].
    + rewrite Hp0 in Hp1. injection Hp1 as <-.
      destruct (upsert_holder h' table r v Hr_path) as (holder & Hget & Hlt).
      destruct (J4 v holder (get_in _ _ _ Hget)) as (_ & q0 & A & B & _ & D).
      exists holder, q0. repeat split; try assumption; [now symmetry|].
      rewrite D, Hr_prec in Hlt. simpl in Hlt. apply Nat.ltb_ge in Hlt. exact Hlt.
    + destruct (I5 r1 p1 Hw1 Hp1) as (holder & q0 & Hget & A & B & C).
      destruct (String.eqb_spec (fst (ResolveVirtualPath transforms p1)) v) as [E|Hne].
      * rewrite E in *. rewrite (upsert_unfold h' table r v Hr_path), Hget.
        destruct (I4 v holder (get_in _ _ _ Hget)) as (Hwh & q0' & A' & _ & _ & D).
        rewrite A in A'. injection A' as <-.
        rewrite (Hold holder Hwh), D, Hr_prec. simpl.
        destruct (Nat.ltb_spec (snd (ResolveVirtualPath transforms q0)) q) as [Hlt|Hge].
        -- exists r, p. rewrite get_set_same.
           split; [reflexivity|]. split; [exact Hp0|]. split; [reflexivity|].
           unfold q in Hlt. lia.
        -- exists holder, q0. now repeat split.
      * exists holder, q0. repeat split; try assumption.
        rewrite (proj2 (upsert_order h' table r v Hr_path) _ Hne). exact Hget.
Qed.

Lemma settled_weaken transforms h0 (written written' : ref -> Prop) w :
  (forall r, written r <-> written' r) ->
  settled transforms h0 written w -> settled transforms h0 written' w.
Proof.
  intros Heq (I1 & I2 & I3 & I4 & I5). unfold settled.
  split; [exact I1|]. split; [exact I2|]. split; [|split].
  - intros r Hr. apply I3. now rewrite Heq.
  - intros k r Hin. destruct (I4 k r Hin) as [Hw Hrest].
    split; [now apply Heq | exact Hrest].
  - intros r p0 Hw. apply (I5 r p0). now apply Heq.
Qed.

Lemma settled_write_all transforms h0 chunks (written : ref -> Prop) w :
  settled transforms h0 written w ->
  NoDup (chunk_refs chunks) ->
  (forall r, In r (chunk_refs chunks) -> ~ written r) ->
  settled transforms h0 (fun r => In r (chunk_refs chunks) \/ written r)
    (snd (write_all chunks w)).
Proof.
  revert written w. induction chunks as [|chunk chunks IH]; intros written w Hs Hnd Hfresh.
  - cbn. apply (settled_weaken _ _ written); [intros r; tauto | exact Hs].
  - destruct (_transform_step w chunk) as (w1 & Hrun & _).
    rewrite (write_all_cons _ _ _ _ Hrun).
    assert (Hw1 : w1 = snd (_transform chunk w)) by now rewrite Hrun.
    destruct chunk as [r|payload].
    + cbn [chunk_refs] in *. apply NoDup_cons_iff in Hnd as [Hnotin Hnd'].
      assert (Hs1 : settled transforms h0 (fun r' => r' = r \/ written r') w1).
      { rewrite Hw1. destruct (get_path (heap w r)) as [p|] eqn:Hp.
        - apply (settled_file _ _ _ _ _ p); auto. apply Hfresh. now left.
        - apply settled_pathless; auto. apply Hfresh. now left. }
      apply (settled_weaken _ _ (fun r' => In r' (chunk_refs chunks)
                                           \/ (r' = r \/ written r'))).
      * intros r'. simpl. split; intros H; intuition (subst; auto).
      * apply IH; [exact Hs1 | exact Hnd' |].
        intros r' Hin [->|Hw]; [contradiction|].
        apply (Hfresh r'); [now right | exact Hw].
    + cbn [chunk_refs] in *. apply IH; try assumption.
      rewrite Hw1. now apply settled_other.
Qed.

(** A stream whose Vinyl chunks are distinct objects, written to a
    bundler with an empty table.  Afterwards every entry of the table is
    one of the written files, filed under the virtual path of the path it
    arrived with and carrying that path's precedence; the paths of the
    table are pairwise distinct; and the virtual path of every written
    file that has a path is held by a written file of the same virtual
    path whose precedence is not lower: no file is displaced by one of
    lower precedence, however many files collide. *)
Theorem distinct_files_highest_precedence_holds chunks (h0 : Heap) (b : Bundler) :
  ResolvedFiles b = JsMap.empty ->
  NoDup (chunk_refs chunks) ->
  settled (PathTransforms b) h0 (fun r => In r (chunk_refs chunks))
    (snd (write_all chunks (start h0 b))).
Proof.
  intros Hempty Hnd.
  apply (settled_weaken _ _ (fun r => In r (chunk_refs chunks) \/ False));
    [intros r; tauto|].
  apply settled_write_all; [|exact Hnd | intros r _ []].
  unfold settled, start. cbn [this heap]. rewrite Hempty.
  split; [reflexivity|]. split; [constructor|]. split; [reflexivity|].
  split; [intros k r [] | intros r p0 []].
Qed.

End DistinctFiles.

(** ** More on [_flush] *)

Section FlushMore.

Context {host : Host}.

Implicit Types (w : World) (r : ref).

(** When a pass rejects, [_flush] stops where it is: the table is not
    cleared and none of its files is pushed or loses its precedence.  If
    it is the scripts pass, nothing has been pushed or recorded; if it is
    the styles pass, the chunks of the scripts pass are already on the
    readable side and its results are already in [ResultsMap].  The
    fault is reported by one callback when it has a message; without a
    message [new PluginError] throws, [_flush] ends with that exception
    and no callback is made. *)
Theorem _flush_stops_at_rejection w :
  (forall e h1,
      BundlesProcessor (heap w) (ResolvedFiles (this w)) (ScriptBundles (this w))
        (Scripts (joiner (this w))) = (inl e, h1) ->
      _flush w
      = if String.eqb (message_of e) ""
        then (inl (JsError "Missing error message"),
              mkWorld h1 (this w) (readable w) (callbacks w))
        else (inr tt,
              mkWorld h1 (this w) (readable w)
                (callbacks w ++ [Some (mkPluginError PluginName e)])%list))
  /\ (forall c1 m1 h1 e h2,
        BundlesProcessor (heap w) (ResolvedFiles (this w)) (ScriptBundles (this w))
          (Scripts (joiner (this w))) = (inr (c1, m1), h1) ->
        BundlesProcessor h1 (ResolvedFiles (this w)) (StyleBundles (this w))
          (Styles (joiner (this w))) = (inl e, h2) ->
        _flush w
        = let b := mkBundler (ResolvedFiles (this w)) (PathTransforms (this w))
                     (ScriptBundles (this w)) (StyleBundles (this w)) (joiner (this w))
                     (recorded m1 (ResultsMap (this w))) in
          if String.eqb (message_of e) ""
          then (inl (JsError "Missing error message"),
                mkWorld h2 b (readable w ++ c1)%list (callbacks w))
          else (inr tt,
                mkWorld h2 b (readable w ++ c1)%list
                  (callbacks w ++ [Some (mkPluginError PluginName e)])%list)).
Proof.
  split.
  - intros e h1 H. unfold _flush, try_catch.
    rewrite (_flush_try_scripts_thrown _ _ _ H).
    destruct (String.eqb_spec (message_of e) "") as [Hmsg|Hmsg].
    + now rewrite (report_silent _ _ Hmsg).
    + apply String.eqb_neq in Hmsg. now rewrite (report_message _ _ Hmsg).
  - intros c1 m1 h1 e h2 H1 H2. unfold _flush, try_catch.
    rewrite (_flush_try_styles_thrown _ _ _ _ _ _ H1 H2). cbv zeta.
    destruct (String.eqb_spec (message_of e) "") as [Hmsg|Hmsg].
    + now rewrite (report_silent _ _ Hmsg).
    + apply String.eqb_neq in Hmsg. now rewrite (report_message _ _ Hmsg).
Qed.

Lemma recorded_other (resultsMap into : JsMap.t (list string)) (name : string) :
  JsMap.get resultsMap name = None ->
  JsMap.get (recorded resultsMap into) name = JsMap.get into name.
Proof.
  revert into. unfold recorded.
  induction resultsMap as [|[k v] rest IH]; intros into H; simpl in *; [reflexivity|].
  destruct (String.eqb_spec k name) as [->|Hne]; [discriminate|].
  rewrite (IH _ H). now apply get_set_other.
Qed.

Lemma recorded_lookup (resultsMap into : JsMap.t (list string)) (name : string) :
  NoDup (JsMap.keys resultsMap) ->
  JsMap.get (recorded resultsMap into) name
  = match JsMap.get resultsMap name with
    | Some paths => Some paths
    | None => JsMap.get into name
    end.
Proof.
  intros Hnd. destruct (JsMap.get resultsMap name) as [paths|] eqn:E.
  - now apply recorded_last.
  - now apply recorded_other.
Qed.

(** Looking a bundle name up in [ResultsMap] after a successful flush:
    the paths the styles pass reports for the name if it reports any,
    else the paths the scripts pass reports, else whatever the map held
    before.  So results of earlier flushes and of names only one pass
    knows are kept. *)
Theorem _flush_results_lookup w c1 m1 h1 c2 m2 h2 (name : string) :
  BundlesProcessor (heap w) (ResolvedFiles (this w)) (ScriptBundles (this w))
    (Scripts (joiner (this w))) = (inr (c1, m1), h1) ->
  BundlesProcessor h1 (ResolvedFiles (this w)) (StyleBundles (this w))
    (Styles (joiner (this w))) = (inr (c2, m2), h2) ->
  NoDup (JsMap.keys m1) -> NoDup (JsMap.keys m2) ->
  JsMap.get (ResultsMap (this (snd (_flush w)))) name
  = match JsMap.get m2 name with
    | Some paths => Some paths
    | None =>
        match JsMap.get m1 name with
        | Some paths => Some paths
        | None => JsMap.get (ResultsMap (this w)) name
        end
    end.
Proof.
  intros H1 H2 Hnd1 Hnd2. unfold _flush, try_catch.
  rewrite (_flush_try_run _ _ _ _ _ _ _ H1 H2). cbn [snd this ResultsMap callback].
  simpl. now rewrite !recorded_lookup.
Qed.

(** What a successful flush leaves alone: the transforms, the bundle
    maps and the factories, and every object that is not in the table
    (such an object is as the styles pass left it). *)
Theorem _flush_frame w c1 m1 h1 c2 m2 h2 :
  BundlesProcessor (heap w) (ResolvedFiles (this w)) (ScriptBundles (this w))
    (Scripts (joiner (this w))) = (inr (c1, m1), h1) ->
  BundlesProcessor h1 (ResolvedFiles (this w)) (StyleBundles (this w))
    (Styles (joiner (this w))) = (inr (c2, m2), h2) ->
  PathTransforms (this (snd (_flush w))) = PathTransforms (this w)
  /\ ScriptBundles (this (snd (_flush w))) = ScriptBundles (this w)
  /\ StyleBundles (this (snd (_flush w))) = StyleBundles (this w)
  /\ joiner (this (snd (_flush w))) = joiner (this w)
  /\ (forall r, ~ In r (JsMap.values (ResolvedFiles (this w))) ->
                heap (snd (_flush w)) r = h2 r).
Proof.
  intros H1 H2. unfold _flush, try_catch.
  rewrite (_flush_try_run _ _ _ _ _ _ _ H1 H2). simpl.
  repeat split. intros r Hr. rewrite stripped_at.
  destruct (existsb (Nat.eqb r) (JsMap.values (ResolvedFiles (this w)))) eqn:E;
    [|reflexivity].
  apply existsb_exists in E as (x & Hin & Hx). apply Nat.eqb_eq in Hx. now subst.
Qed.

End FlushMore.

(** ** Virtual paths are in normal form *)

Section VirtualPaths.

Context {host : Host}.

(** The virtual path of a path in normal form is in normal form: the
    keys of the table are fixed by [path.resolve] as soon as the paths of
    the incoming files are.  A path rewritten by a transform is in normal
    form in any case. *)
Theorem virtual_path_normal (transforms : list (string * string)) (path : string) :
  (resolvePath path = path ->
   resolvePath (fst (ResolveVirtualPath transforms path))
   = fst (ResolveVirtualPath transforms path))
  /\ (fst (ResolveVirtualPath transforms path) = path
      \/ resolvePath (fst (ResolveVirtualPath transforms path))
         = fst (ResolveVirtualPath transforms path)).
Proof.
  unfold ResolveVirtualPath.
  destruct (ResolveVirtualPath_from_cases transforms path 0)
    as [[Hres _]|(i & o & n & _ & _ & _ & Hres)]; rewrite Hres; cbn [fst].
  - split; [tauto | now left].
  - split; [intros _ | right]; apply resolvePath_normal.
Qed.

End VirtualPaths.

(** ** Further concrete runs *)

Section MoreRuns.

Import Samples.

#[local] Existing Instance sample_host.

Lemma shadowed_transform_never_decides_witness :
  Nat.eqb (snd (ResolveVirtualPath [("/a", "/x"); ("/a/b", "/y")] "/a/b/c.js")) 1
  = false
  /\ ResolveVirtualPath [("/a", "/x"); ("/a/b", "/y")] "/a/b/c.js" = ("/x/b/c.js", 0).
Proof.
  split; [|reflexivity].
  apply (shadowed_transform_never_decides _ _ 0 1 "/a" "/x" "/a/b" "/y");
    [lia | reflexivity | reflexivity | reflexivity].
Defined.

Lemma new_Bundler_registers_in_order_witness :
  ScriptBundles (new_Bundler indexed_config sample_joiner)
  = [("9", ["/nine.js"]); ("10", ["/ten.js"]); ("b", ["/b.js"])]
  /\ StyleBundles (new_Bundler indexed_config sample_joiner)
     = [("10", ["/ten.css"]); ("a", ["/a.css"])]
  /\ ScriptBundles sample_bundler = [("main", ["/a/app.js"])].
Proof.
  destruct (new_Bundler_registers_in_order indexed_config sample_joiner
              [("b", RawConfig.mkBundle (Some ["b.js"]) None);
               ("10", RawConfig.mkBundle (Some ["ten.js"]) (Some ["ten.css"]));
               ("9", RawConfig.mkBundle (Some ["nine.js"]) None);
               ("a", RawConfig.mkBundle None (Some ["a.css"]))]
              eq_refl) as [[Hscripts Hstyles] _].
  - repeat constructor; simpl; intuition discriminate.
  - destruct (new_Bundler_registers_in_order sample_config sample_joiner
                [("main", RawConfig.mkBundle (Some ["a/app.js"]) (Some ["a/site.css"]))]
                eq_refl) as [_ Hnamed].
    + repeat constructor. intros [].
    + destruct Hnamed as [Hmain _].
      * intros name [<-|[]]. reflexivity.
      * split; [exact Hscripts|]. split; [exact Hstyles | exact Hmain].
Defined.

Lemma upsert_keeps_order_witness :
  JsMap.keys (upsert resolved_heap [("/z.js", 5); ("/a/app.js", 0); ("/y.js", 6)] 1)
  = ["/z.js"; "/a/app.js"; "/y.js"]
  /\ JsMap.get (upsert resolved_heap [("/z.js", 5); ("/a/app.js", 0); ("/y.js", 6)] 1)
       "/a/app.js" = Some 1.
Proof.
  destruct (upsert_keeps_order resolved_heap
              [("/z.js", 5); ("/a/app.js", 0); ("/y.js", 6)] 1 "/a/app.js" eq_refl)
    as [Hkeys _].
  split; [exact Hkeys | reflexivity].
Defined.

Lemma _transform_pathless_witness :
  snd (_transform (CVinyl 7) sample_world)
  = mkWorld sample_heap sample_bundler []
      [Some (mkPluginError "gulp-bundle-assets"
               (TypeError "Cannot read properties of undefined (reading 'startsWith')"))].
Proof.
  now rewrite (_transform_pathless sample_world 7 eq_refl).
Defined.

Lemma distinct_files_highest_precedence_holds_witness :
  NoDup (JsMap.keys
           (ResolvedFiles
              (this (snd (write_all [CVinyl 0; COther "x"; CVinyl 1; CVinyl 2]
                            sample_world)))))
  /\ ResolvedFiles
       (this (snd (write_all [CVinyl 0; COther "x"; CVinyl 1; CVinyl 2] sample_world)))
     = [("/a/app.js", 0); ("/a/site.css", 2)].
Proof.
  destruct (distinct_files_highest_precedence_holds
              [CVinyl 0; COther "x"; CVinyl 1; CVinyl 2] sample_heap sample_bundler
              eq_refl) as (_ & Hnd & _).
  - repeat constructor; simpl; intuition discriminate.
  - split; [exact Hnd | reflexivity].
Defined.

Lemma _flush_results_lookup_witness :
  JsMap.get (ResultsMap (this (snd (_flush collected_world)))) "main"
  = Some ["main.css"]
  /\ JsMap.get (ResultsMap (this (snd (_flush collected_world)))) "other" = None.
Proof.
  pose proof (fun name =>
    _flush_results_lookup collected_world
      [CVinyl 10] [("main", ["main.js"])]
      (snd (BundlesProcessor (heap collected_world)
              (ResolvedFiles (this collected_world))
              (ScriptBundles (this collected_world))
              (Scripts (joiner (this collected_world)))))
      [CVinyl 11] [("main", ["main.css"])]
      (snd (BundlesProcessor
              (snd (BundlesProcessor (heap collected_world)
                      (ResolvedFiles (this collected_world))
                      (ScriptBundles (this collected_world))
                      (Scripts (joiner (this collected_world)))))
              (ResolvedFiles (this collected_world))
              (StyleBundles (this collected_world))
              (Styles (joiner (this collected_world)))))
      name eq_refl eq_refl
      (NoDup_cons "main" (fun H : In "main" [] => H) (NoDup_nil string))
      (NoDup_cons "main" (fun H : In "main" [] => H) (NoDup_nil string))) as H.
  split; [exact (H "main") | exact (H "other")].
Defined.

Lemma _flush_frame_witness :
  PathTransforms (this (snd (_flush collected_world))) = [("/b", "/a")]
  /\ heap (snd (_flush collected_world)) 1 = mkVinyl ["/b/app.js"] "B" None.
Proof.
  destruct (_flush_frame collected_world
      [CVinyl 10] [("main", ["main.js"])]
      (snd (BundlesProcessor (heap collected_world)
              (ResolvedFiles (this collected_world))
              (ScriptBundles (this collected_world))
              (Scripts (joiner (this collected_world)))))
      [CVinyl 11] [("main", ["main.css"])]
      (snd (BundlesProcessor
              (snd (BundlesProcessor (heap collected_world)
                      (ResolvedFiles (this collected_world))
                      (ScriptBundles (this collected_world))
                      (Scripts (joiner (this collected_world)))))
              (ResolvedFiles (this collected_world))
              (StyleBundles (this collected_world))
              (Styles (joiner (this collected_world)))))
      eq_refl eq_refl) as (Hts & _ & _ & _ & Hheap).
  split; [exact Hts|].
  rewrite (Hheap 1); [reflexivity|]. simpl. intuition discriminate.
Defined.

Lemma _flush_stops_at_rejection_witness :
  _flush failing_world
  = (inr tt,
     mkWorld sample_heap
       (mkBundler [] [("/b", "/a")] [("main", ["/a/app.js"])]
          [("main", ["/a/site.css"])] (joiner (this failing_world)) [("main", [])])
       [] [Some (mkPluginError "gulp-bundle-assets" (Rejected "boom"))])
  /\ fst (_flush silent_world) = inl (JsError "Missing error message")
  /\ callbacks (snd (_flush silent_world)) = []
  /\ ResultsMap (this (snd (_flush silent_world))) = [("main", [])].
Proof.
  destruct (_flush_stops_at_rejection failing_world) as [_ Hstyles].
  destruct (_flush_stops_at_rejection silent_world) as [_ Hsilent].
  rewrite (Hstyles [] [("main", [])] sample_heap (Rejected "boom") sample_heap
             eq_refl eq_refl).
  rewrite (Hsilent [] [("main", [])] sample_heap (Rejected "") sample_heap
             eq_refl eq_refl).
  repeat split.
Defined.

Lemma run_calls_back_witness :
  fst (run [CVinyl 0; COther "x"; CVinyl 7] silent_world)
  = inl (JsError "Missing error message")
  /\ length (callbacks (snd (run [CVinyl 0; COther "x"; CVinyl 7] silent_world))) = 3
  /\ fst (run [CVinyl 0; COther "x"; CVinyl 7] failing_world) = inr tt
  /\ length (callbacks (snd (run [CVinyl 0; COther "x"; CVinyl 7] failing_world))) = 4.
Proof.
  destruct (run_calls_back [CVinyl 0; COther "x"; CVinyl 7] silent_world) as [_ Hsilent].
  destruct (run_calls_back [CVinyl 0; COther "x"; CVinyl 7] failing_world) as [Hloud _].
  destruct (Hsilent (Rejected "") eq_refl eq_refl) as [A B].
  destruct Hloud as [C D].
  - intros e He. injection He as <-. reflexivity.
  - repeat split; assumption.
Defined.

End MoreRuns.

(** ** The order of the table and of a whole run *)

Section ArrivalOrder.

Context {host : Host}.

Implicit Types (w : World) (r : ref) (chunks : list Chunk).

Lemma has_in_keys {V : Type} (m : JsMap.t V) (k : string) :
  JsMap.has m k = true <-> In k (JsMap.keys m).
Proof.
  rewrite has_get. split.
  - destruct (JsMap.get m k) as [v|] eqn:E; [|discriminate].
    intros _. apply get_in in E. unfold JsMap.keys.
    apply in_map_iff. now exists (k, v).
  - intros Hin. destruct (JsMap.get m k) eqn:E; [reflexivity|].
    now apply get_none_not_in in E.
Qed.

Lemma first_seen_snoc (names : list string) (name : string) :
  ConfigModel.first_seen (names ++ [name])%list
  = if existsb (String.eqb name) names then ConfigModel.first_seen names
    else (ConfigModel.first_seen names ++ [name])%list.
Proof.
  induction names as [|a rest IH]; simpl; [reflexivity|].
  rewrite IH. destruct (String.eqb_spec name a) as [->|Hne]; simpl.
  - destruct (existsb (String.eqb a) rest); [reflexivity|].
    rewrite filter_app. simpl. rewrite String.eqb_refl. simpl.
    now rewrite app_nil_r.
  - destruct (existsb (String.eqb name) rest); [reflexivity|].
    rewrite filter_app. simpl.
    destruct (String.eqb_spec name a); [contradiction | reflexivity].
Qed.

Lemma existsb_eqb_in (names : list string) (name : string) :
  existsb (String.eqb name) names = true <-> In name names.
Proof.
  rewrite existsb_exists. split.
  - intros (x & Hin & E). apply String.eqb_eq in E. now subst.
  - intros Hin. exists name. split; [exact Hin | apply String.eqb_refl].
Qed.

Lemma keys_write_all transforms h0 chunks (written : ref -> Prop) w (seen : list string) :
  settled transforms h0 written w ->
  NoDup (chunk_refs chunks) ->
  (forall r, In r (chunk_refs chunks) -> ~ written r) ->
  JsMap.keys (ResolvedFiles (this w)) = ConfigModel.first_seen seen ->
  JsMap.keys (ResolvedFiles (this (snd (write_all chunks w))))
  = ConfigModel.first_seen
      (seen ++ virtual_paths transforms h0 (chunk_refs chunks))%list.
Proof.
  revert written w seen.
  induction chunks as [|chunk chunks IH]; intros written w seen Hs Hnd Hfresh Hkeys.
  - cbn. now rewrite app_nil_r.
  - destruct (_transform_step w chunk) as (w1 & Hrun & _).
    rewrite (write_all_cons _ _ _ _ Hrun).
    assert (Hw1 : w1 = snd (_transform chunk w)) by now rewrite Hrun.
    destruct chunk as [r|payload].
    + cbn [chunk_refs] in *. apply NoDup_cons_iff in Hnd as [Hnotin Hnd'].
      assert (Hr : ~ written r) by (apply Hfresh; now left).
      assert (Hh0 : heap w r = h0 r) by (destruct Hs as (_ & _ & I3 & _); now apply I3).
      assert (Hfresh' : forall r', In r' (chunk_refs chunks) -> ~ (r' = r \/ written r')).
      { intros r' Hin [->|Hw]; [contradiction|].
        apply (Hfresh r'); [now right | exact Hw]. }
      unfold virtual_paths. cbn [flat_map]. fold (virtual_paths transforms h0).
      destruct (get_path (h0 r)) as [p|] eqn:Hp.
      * rewrite <- Hh0 in Hp. rewrite app_assoc.
        apply (IH (fun r' => r' = r \/ written r'));
          [rewrite Hw1; now apply (settled_file _ _ _ _ _ p) | exact Hnd' | exact Hfresh' |].
        rewrite Hw1, (_transform_vinyl_run w r p Hp). cbn [snd]. cbv zeta.
        cbn [this ResolvedFiles].
        destruct Hs as (I1 & _). rewrite I1.
        set (h' := store (heap w) r (resolved_file transforms p (heap w r))).
        assert (Hpath : get_path (h' r)
                        = Some (fst (ResolveVirtualPath transforms p))).
        { unfold h', store. rewrite Nat.eqb_refl. now apply resolved_file_path. }
        rewrite (proj1 (upsert_order h' _ r _ Hpath)), first_seen_snoc, Hkeys.
        destruct (JsMap.has (ResolvedFiles (this w))
                    (fst (ResolveVirtualPath transforms p))) eqn:Hhas.
        -- apply (proj1 (has_in_keys _ _)) in Hhas. rewrite Hkeys in Hhas.
           apply (proj1 (first_seen_In _ _)) in Hhas.
           apply (proj2 (existsb_eqb_in _ _)) in Hhas. now rewrite Hhas.
        -- destruct (existsb (String.eqb (fst (ResolveVirtualPath transforms p))) seen)
             eqn:Hex; [|reflexivity].
           apply (proj1 (existsb_eqb_in _ _)) in Hex.
           apply (proj2 (first_seen_In _ _)) in Hex. rewrite <- Hkeys in Hex.
           apply (proj2 (has_in_keys _ _)) in Hex. congruence.
      * rewrite <- Hh0 in Hp. cbn [app].
        apply (IH (fun r' => r' = r \/ written r'));
          [rewrite Hw1; now apply settled_pathless | exact Hnd' | exact Hfresh' |].
        now rewrite Hw1, (_transform_pathless_run w r Hp).
    + cbn [chunk_refs] in *. apply (IH written); try assumption.
      * rewrite Hw1. now apply settled_other.
      * now rewrite Hw1.
Qed.

(** The table lists the virtual paths in the order in which they first
    arrived: when the Vinyl chunks of a stream are distinct objects and
    the table starts empty, its paths are the first occurrences of the
    files' virtual paths, in order of arrival.  A file that overrides
    another takes the other's place (and so its turn on the flush), not a
    place of its own. *)
Theorem table_lists_paths_by_first_arrival chunks (h0 : Heap) (b : Bundler) :
  ResolvedFiles b = JsMap.empty ->
  NoDup (chunk_refs chunks) ->
  JsMap.keys (ResolvedFiles (this (snd (write_all chunks (start h0 b)))))
  = ConfigModel.first_seen (virtual_paths (PathTransforms b) h0 (chunk_refs chunks)).
Proof.
  intros Hempty Hnd.
  apply (keys_write_all _ h0 chunks (fun _ => False) (start h0 b) []);
    [| exact Hnd | intros r _ [] | now (cbn; rewrite Hempty)].
  unfold settled, start. cbn [this heap]. rewrite Hempty.
  split; [reflexivity|]. split; [constructor|]. split; [reflexivity|].
  split; [intros k r [] | intros r p0 []].
Qed.

(** A whole run whose passes succeed puts on the readable side, in this
    order: the chunks that are not Vinyl objects, as they arrived; the
    chunks of the scripts pass; those of the styles pass; the files of
    the table in the table's order.  Nothing else is pushed. *)
Theorem run_output_order chunks w c1 m1 h1 c2 m2 h2 :
  BundlesProcessor (heap (snd (write_all chunks w)))
    (ResolvedFiles (this (snd (write_all chunks w))))
    (ScriptBundles (this (snd (write_all chunks w))))
    (Scripts (joiner (this (snd (write_all chunks w))))) = (inr (c1, m1), h1) ->
  BundlesProcessor h1
    (ResolvedFiles (this (snd (write_all chunks w))))
    (StyleBundles (this (snd (write_all chunks w))))
    (Styles (joiner (this (snd (write_all chunks w))))) = (inr (c2, m2), h2) ->
  readable (snd (run chunks w))
  = (readable w ++ other_chunks chunks ++ c1 ++ c2
     ++ map CVinyl (JsMap.values (ResolvedFiles (this (snd (write_all chunks w))))))%list
  /\ ResolvedFiles (this (snd (run chunks w))) = JsMap.empty.
Proof.
  destruct (write_all_summary chunks w) as (w1 & Hwrite & Hread & _).
  unfold run. rewrite (bind_ok _ _ _ _ _ Hwrite), Hwrite. cbn [snd].
  intros H1 H2. unfold _flush, try_catch.
  rewrite (_flush_try_run _ _ _ _ _ _ _ H1 H2). cbn [snd readable this ResolvedFiles].
  split; [|reflexivity]. now rewrite Hread, <- !app_assoc.
Qed.

End ArrivalOrder.

Section ArrivalRuns.

Import Samples.

#[local] Existing Instance sample_host.

Lemma table_lists_paths_by_first_arrival_witness :
  JsMap.keys
    (ResolvedFiles
       (this (snd (write_all [CVinyl 2; CVinyl 0; COther "x"; CVinyl 1]
                     (start sample_heap
                        (mkBundler [] [("/x", "/y"); ("/b", "/a")] [] []
                           sample_joiner []))))))
  = ["/a/site.css"; "/a/app.js"].
Proof.
  rewrite (table_lists_paths_by_first_arrival
             [CVinyl 2; CVinyl 0; COther "x"; CVinyl 1] sample_heap
             (mkBundler [] [("/x", "/y"); ("/b", "/a")] [] [] sample_joiner [])
             eq_refl).
  - reflexivity.
  - repeat constructor; simpl; intuition discriminate.
Defined.

Lemma run_output_order_witness :
  readable (snd (run [CVinyl 0; COther "x"; CVinyl 1; CVinyl 2] sample_world))
  = [COther "x"; CVinyl 10; CVinyl 11; CVinyl 0; CVinyl 2].
Proof.
  destruct (run_output_order [CVinyl 0; COther "x"; CVinyl 1; CVinyl 2] sample_world
      [CVinyl 10] [("main", ["main.js"])]
      (snd (BundlesProcessor
              (heap (snd (write_all [CVinyl 0; COther "x"; CVinyl 1; CVinyl 2] sample_world)))
              (ResolvedFiles (this (snd (write_all [CVinyl 0; COther "x"; CVinyl 1; CVinyl 2] sample_world))))
              (ScriptBundles (this sample_world))
              (Scripts (joiner (this sample_world)))))
      [CVinyl 11] [("main", ["main.css"])]
      (snd (BundlesProcessor
              (snd (BundlesProcessor
                      (heap (snd (write_all [CVinyl 0; COther "x"; CVinyl 1; CVinyl 2] sample_world)))
                      (ResolvedFiles (this (snd (write_all [CVinyl 0; COther "x"; CVinyl 1; CVinyl 2] sample_world))))
                      (ScriptBundles (this sample_world))
                      (Scripts (joiner (this sample_world)))))
              (ResolvedFiles (this (snd (write_all [CVinyl 0; COther "x"; CVinyl 1; CVinyl 2] sample_world))))
              (StyleBundles (this sample_world))
              (Styles (joiner (this sample_world)))))
      eq_refl eq_refl) as [Hread _].
  exact Hread.
Defined.

End ArrivalRuns.
